(** * Terrain collision engine: ground query, terrain generator, body step

    A shallow embedding of the physics core of the terrain playground:
    - [src/three/physics/math.ts]      (vector and triangle helpers),
    - [src/three/components/Terrain.tsx] (the heightfield generator),
    - [src/three/components/Ball.tsx]  (the ground query and the per-frame
      step of the ball, in keyboard mode and in legacy launch mode).

    Numbers.  A JavaScript [number] is modelled as an exact real: [+], [-],
    [*], [/], [Math.sqrt], [Math.sin], [Math.cos], [Math.abs], [Math.min],
    [Math.max] and [Math.floor] are the operations of [R].  Rounding,
    overflow and NaN are outside the model.  Every division the code
    performs on a path modelled here is guarded by the code itself, except
    [size / divisions] in the generator, whose quotient is only used when
    [divisions] is positive.  Integers the code counts with ([id], loop
    indices) are [Z] and [nat]. *)

From Stdlib Require Import Reals Lra Lia List ZArith Bool.
Import ListNotations.
Open Scope R_scope.

(** ** Comparisons of numbers, as the booleans the code branches on *)

Module Num.

Definition ltb (p q : R) : bool := if Rlt_dec p q then true else false.
Definition leb (p q : R) : bool := if Rle_dec p q then true else false.
Definition gtb (p q : R) : bool := ltb q p.
Definition geb (p q : R) : bool := leb q p.
Definition eqb (p q : R) : bool := if Req_dec_T p q then true else false.

(** [p || q] on numbers: [q] when [p] is zero. *)
Definition or_else (p q : R) : R := if eqb p 0 then q else p.

(** [Math.floor]. *)
Definition floor (p : R) : R := IZR (Int_part p).

End Num.

(** ** THREE.Vector3

    The methods of the three.js vector class that the core calls.  The class
    mutates [this]; every use in the core is either on a fresh clone or is
    written back to the same reference, so a method is a function returning
    the new value of [this]. *)

Module Vector3.

Record t : Type := mk { x : R; y : R; z : R }.

Definition zero : t := mk 0 0 0.

Definition add (u v : t) : t := mk (x u + x v) (y u + y v) (z u + z v).
Definition sub (u v : t) : t := mk (x u - x v) (y u - y v) (z u - z v).
Definition multiplyScalar (u : t) (s : R) : t := mk (x u * s) (y u * s) (z u * s).
Definition divideScalar (u : t) (s : R) : t := multiplyScalar u (1 / s).
Definition dot (u v : t) : R := x u * x v + y u * y v + z u * z v.
Definition cross (u v : t) : t :=
  mk (y u * z v - z u * y v) (z u * x v - x u * z v) (x u * y v - y u * x v).
Definition lengthSq (u : t) : R := x u * x u + y u * y u + z u * z u.
Definition length (u : t) : R := sqrt (lengthSq u).
Definition normalize (u : t) : t := divideScalar u (Num.or_else (length u) 1).
Definition addScaledVector (u v : t) (s : R) : t :=
  mk (x u + x v * s) (y u + y v * s) (z u + z v * s).
Definition distanceToSquared (u v : t) : R :=
  let dx := x u - x v in
  let dy := y u - y v in
  let dz := z u - z v in
  dx * dx + dy * dy + dz * dz.

Definition set_x (u : t) (r : R) : t := mk r (y u) (z u).
Definition set_y (u : t) (r : R) : t := mk (x u) r (z u).
Definition set_z (u : t) (r : R) : t := mk (x u) (y u) r.

End Vector3.

(** ** physics/math.ts *)

Definition normalize (v : Vector3.t) : Vector3.t := Vector3.normalize v.

Definition projectOnto (v n : Vector3.t) : Vector3.t :=
  let nn := Vector3.lengthSq n in
  if Num.eqb nn 0 then Vector3.zero
  else Vector3.multiplyScalar n (Vector3.dot v n / nn).

Definition reflect (v n : Vector3.t) : Vector3.t :=
  let nUnit := normalize n in
  Vector3.sub v (Vector3.multiplyScalar nUnit (2 * Vector3.dot v nUnit)).

Definition triangleNormal (a b c : Vector3.t) : Vector3.t :=
  let ab := Vector3.sub b a in
  let ac := Vector3.sub c a in
  Vector3.normalize (Vector3.cross ab ac).

Definition triangleCentroid (a b c : Vector3.t) : Vector3.t :=
  Vector3.mk ((Vector3.x a + Vector3.x b + Vector3.x c) / 3)
             ((Vector3.y a + Vector3.y b + Vector3.y c) / 3)
             ((Vector3.z a + Vector3.z b + Vector3.z c) / 3).

Definition pointInTriangle (p a b c : Vector3.t) : bool :=
  let v0 := Vector3.sub c a in
  let v1 := Vector3.sub b a in
  let v2 := Vector3.sub p a in
  let dot00 := Vector3.dot v0 v0 in
  let dot01 := Vector3.dot v0 v1 in
  let dot02 := Vector3.dot v0 v2 in
  let dot11 := Vector3.dot v1 v1 in
  let dot12 := Vector3.dot v1 v2 in
  let denom := dot00 * dot11 - dot01 * dot01 in
  if Num.eqb denom 0 then false
  else
    let u := (dot11 * dot02 - dot01 * dot12) / denom in
    let v := (dot00 * dot12 - dot01 * dot02) / denom in
    Num.geb u (-1e-6) && Num.geb v (-1e-6) && Num.leb (u + v) (1 + 1e-6).

Module Face.
Record t : Type := mk {
  id : Z;
  a : Vector3.t;
  b : Vector3.t;
  c : Vector3.t;
  normal : Vector3.t;
  centroid : Vector3.t
}.
End Face.

(** ** Ball.tsx: the ground query *)

Module GroundInfo.
Record t : Type := mk { y : R; normal : Vector3.t; id : Z }.
End GroundInfo.

(** One iteration of the loop of [getGroundInfo]; [best] is the loop's
    variable, and a [continue] leaves it as it is. *)
Definition getGroundInfo_body (x z : R) (best : option GroundInfo.t)
    (f : Face.t) : option GroundInfo.t :=
  let n := Face.normal f in
  if Num.ltb (Rabs (Vector3.y n)) 1e-4 then best
  else
    let dx := x - Vector3.x (Face.a f) in
    let dz := z - Vector3.z (Face.a f) in
    let y := Vector3.y (Face.a f)
             - (Vector3.x n * dx + Vector3.z n * dz) / Vector3.y n in
    let tmp := Vector3.mk x y z in
    if negb (pointInTriangle tmp (Face.a f) (Face.b f) (Face.c f)) then best
    else
      match best with
      | None => Some (GroundInfo.mk y n (Face.id f))
      | Some bst =>
          if Num.gtb y (GroundInfo.y bst)
          then Some (GroundInfo.mk y n (Face.id f))
          else best
      end.

Definition getGroundInfo (x z : R) (faces : list Face.t) : option GroundInfo.t :=
  fold_left (getGroundInfo_body x z) faces None.

(** ** Terrain.tsx: the heightfield generator *)

Inductive TerrainType : Type := hills | smooth | valleys | rough.

Definition pseudoRandom (x y : R) : R :=
  let seed := sin (x * 12.9898 + y * 78.233) * 43758.5453 in
  seed - Num.floor seed.

Definition generateTerrainHeight (i j : R) (type : TerrainType) (height : R) : R :=
  match type with
  | smooth => 0
  | hills =>
      let hill1 := sin (i * 0.5) * cos (j * 0.5) * 0.8 in
      let hill2 := sin (i * 0.3) * cos (j * 0.4) * 0.6 in
      (hill1 + hill2) * height * 0.5
  | valleys =>
      let valley1 := sin (i * 0.4) * cos (j * 0.4) * 1.2 in
      let valley2 := sin (i * 0.7) * cos (j * 0.6) * 0.8 in
      (valley1 + valley2) * height * 0.8
  | rough =>
      let noise1 := sin (i * 0.8) * cos (j * 0.8) * 0.4 in
      let noise2 := sin (i * 1.3) * cos (j * 0.9) * 0.3 in
      let noise3 := sin (i * 2.1) * cos (j * 1.8) * 0.15 in
      let deterministicNoise := (pseudoRandom i j - 0.5) * 0.3 in
      (noise1 + noise2 + noise3 + deterministicNoise) * height * 0.6
  end.

(** The outcome of a call: a value, or the [TypeError] JavaScript throws
    when a property of [undefined] is read. *)
Inductive result (A : Type) : Type :=
  | Ok (v : A)
  | TypeError.
Arguments Ok {A} v.
Arguments TypeError {A}.

Definition bind {A B : Type} (m : result A) (k : A -> result B) : result B :=
  match m with
  | Ok v => k v
  | TypeError => TypeError
  end.

Notation "x <- m ;; k" := (bind m (fun x => k))
  (at level 61, m at next level, right associativity).

(** [for (let i = 0; i < n; i++) body], the loop state passed along. *)
Fixpoint for_each {S : Type} (l : list nat) (body : nat -> S -> result S)
    (st : S) : result S :=
  match l with
  | [] => Ok st
  | i :: l' => st' <- body i st ;; for_each l' body st'
  end.

(** The number of iterations of [for (let i = 0; i < n; i++)] and of
    [for (let i = 0; i <= n; i++)] for a number [n], which need not be an
    integer: the number of naturals below [n], and of naturals up to [n].
    [up n] is the least integer strictly above [n]. *)
Definition countBelow (n : R) : nat := Z.to_nat (1 - up (- n)).
Definition countUpto (n : R) : nat := Z.to_nat (up n).

(** The values of [i] with [0 <= i < n] and with [0 <= i <= n]. *)
Definition below (n : R) : list nat := seq 0 (countBelow n).
Definition upto (n : R) : list nat := seq 0 (countUpto n).

(** [vertices[i][j]]: an index outside the array gives [undefined], and the
    first use of it (a further index, or [.clone()] in [triangleNormal])
    throws. *)
Definition vertexAt (vertices : list (list Vector3.t)) (i j : nat)
    : result Vector3.t :=
  match nth_error vertices i with
  | None => TypeError
  | Some row =>
      match nth_error row j with
      | None => TypeError
      | Some v => Ok v
      end
  end.

(** The argument of [buildTerrainFaces]; every field but the profile is a
    number. *)
Module TerrainParams.
Record t : Type := mk {
  size : R;
  divisions : R;
  height : R;
  type : TerrainType
}.
(** The defaults of the destructured argument. *)
Definition default : t := mk 10 6 2.5 rough.
End TerrainParams.

Definition gridVertex (size step height : R) (type : TerrainType) (i j : nat)
    : Vector3.t :=
  let x := - size / 2 + INR i * step in
  let z := - size / 2 + INR j * step in
  let y := generateTerrainHeight (INR i) (INR j) type height in
  Vector3.mk x y z.

Definition buildVertices (size : R) (divisions : R) (height : R)
    (type : TerrainType) : list (list Vector3.t) :=
  let step := size / divisions in
  map (fun i => map (fun j => gridVertex size step height type i j)
                    (upto divisions))
      (upto divisions).

(** The body of the inner face loop; the state is [(faces, id)]. *)
Definition buildCell (vertices : list (list Vector3.t)) (i j : nat)
    (st : list Face.t * Z) : result (list Face.t * Z) :=
  a <- vertexAt vertices i j ;;
  b <- vertexAt vertices (i + 1) j ;;
  c <- vertexAt vertices i (j + 1) ;;
  d <- vertexAt vertices (i + 1) (j + 1) ;;
  let '(faces, id) := st in
  let f1n := triangleNormal a c b in
  let f1c := triangleCentroid a c b in
  let faces := faces ++ [Face.mk id a c b f1n f1c] in
  let id := (id + 1)%Z in
  let f2n := triangleNormal b c d in
  let f2c := triangleCentroid b c d in
  let faces := faces ++ [Face.mk id b c d f2n f2c] in
  let id := (id + 1)%Z in
  Ok (faces, id).

Definition buildTerrainFaces (p : TerrainParams.t) : result (list Face.t) :=
  let size := TerrainParams.size p in
  let divisions := TerrainParams.divisions p in
  let vertices :=
    buildVertices size divisions (TerrainParams.height p) (TerrainParams.type p) in
  st <- for_each (below divisions)
          (fun i st =>
             for_each (below divisions) (fun j st => buildCell vertices i j st) st)
          ([], 0%Z) ;;
  Ok (fst st).

(** ** Ball.tsx: the ball and its per-frame step *)

(** The pressed state of the four keys, [keys.current]; a key never seen is
    [undefined], which the tests below read as not pressed. *)
Module Keys.
Record t : Type := mk { w : bool; a : bool; s : bool; d : bool }.
Definition none : t := mk false false false false.
End Keys.

(** The argument of [onVectorUpdate]. *)
Module Vectors.
Record t : Type := mk {
  velocity : Vector3.t;
  normal : Vector3.t;
  projection : Vector3.t;
  reflection : Vector3.t
}.
Definition zero : t := mk Vector3.zero Vector3.zero Vector3.zero Vector3.zero.
End Vectors.

(** The [impact] state of legacy mode. *)
Module Impact.
Record t : Type := mk {
  point : Vector3.t;
  incoming : Vector3.t;
  normal : Vector3.t;
  projection : Vector3.t;
  reflection : Vector3.t;
  until : R
}.
End Impact.

(** The calls the step makes to the callbacks of the page, in order. *)
Inductive Event : Type :=
  | onHighlightFace (id : option Z)
  | onVectorUpdate (v : Vectors.t).

(** The properties of the component that the step reads. *)
Module Props.
Record t : Type := mk {
  faces : list Face.t;
  radius : R;
  startPos : Vector3.t;
  launched : bool;
  keyboardControl : bool
}.
End Props.

(** What persists from frame to frame: the position of the mesh, the refs
    and the React state. *)
Module Ball.
Record t : Type := mk {
  position : Vector3.t;
  velocityRef : Vector3.t;
  contactRef : Vector3.t;
  incomingRef : Vector3.t;
  normalRef : Vector3.t;
  projectionRef : Vector3.t;
  reflectionRef : Vector3.t;
  impact : option Impact.t;
  currentFaceId : option Z;
  lastVectorUpdate : R
}.

Definition with_position (st : t) (p : Vector3.t) : t :=
  mk p (velocityRef st) (contactRef st) (incomingRef st) (normalRef st)
     (projectionRef st) (reflectionRef st) (impact st) (currentFaceId st)
     (lastVectorUpdate st).
Definition with_velocity (st : t) (v : Vector3.t) : t :=
  mk (position st) v (contactRef st) (incomingRef st) (normalRef st)
     (projectionRef st) (reflectionRef st) (impact st) (currentFaceId st)
     (lastVectorUpdate st).
Definition with_contact (st : t) (ct inc n pr rf : Vector3.t) : t :=
  mk (position st) (velocityRef st) ct inc n pr rf (impact st)
     (currentFaceId st) (lastVectorUpdate st).
Definition with_impact (st : t) (i : option Impact.t) : t :=
  mk (position st) (velocityRef st) (contactRef st) (incomingRef st)
     (normalRef st) (projectionRef st) (reflectionRef st) i
     (currentFaceId st) (lastVectorUpdate st).
Definition with_currentFaceId (st : t) (i : option Z) : t :=
  mk (position st) (velocityRef st) (contactRef st) (incomingRef st)
     (normalRef st) (projectionRef st) (reflectionRef st) (impact st) i
     (lastVectorUpdate st).
Definition with_lastVectorUpdate (st : t) (r : R) : t :=
  mk (position st) (velocityRef st) (contactRef st) (incomingRef st)
     (normalRef st) (projectionRef st) (reflectionRef st) (impact st)
     (currentFaceId st) r.
End Ball.

Definition pressed (k : bool) : R := if k then 1 else 0.

(** *** Keyboard mode *)

Definition speed : R := 5.
Definition gravity : R := -9.81.
Definition terrainSize : R := 10.
Definition resetThreshold : R := -5.

(** Lines 142-157: the keys set the horizontal velocity, or it is damped. *)
Definition applyInput (keys : Keys.t) (v : Vector3.t) : Vector3.t :=
  let input :=
    Vector3.mk (pressed (Keys.d keys) - pressed (Keys.a keys)) 0
               (pressed (Keys.w keys) - pressed (Keys.s keys)) in
  if Num.gtb (Vector3.lengthSq input) 0 then
    let input := Vector3.multiplyScalar (Vector3.normalize input) speed in
    Vector3.set_z (Vector3.set_x v (Vector3.x input)) (Vector3.z input)
  else
    Vector3.set_z (Vector3.set_x v (Vector3.x v * 0.9)) (Vector3.z v * 0.9).

(** Line 160. *)
Definition applyGravity (delta : R) (v : Vector3.t) : Vector3.t :=
  Vector3.set_y v (Vector3.y v + gravity * delta).

(** Lines 139-163: input, gravity, then the Euler step of the position. *)
Definition integrate (keys : Keys.t) (delta : R) (st : Ball.t) : Ball.t :=
  let v := applyGravity delta (applyInput keys (Ball.velocityRef st)) in
  let st := Ball.with_velocity st v in
  Ball.with_position st (Vector3.addScaledVector (Ball.position st) v delta).

(** Lines 170-172. *)
Definition outOfBounds (pos : Vector3.t) : bool :=
  Num.ltb (Vector3.y pos) resetThreshold
  || Num.gtb (Rabs (Vector3.x pos)) (terrainSize * 0.6)
  || Num.gtb (Rabs (Vector3.z pos)) (terrainSize * 0.6).

(** Lines 173-189. *)
Definition recover (props : Props.t) (st : Ball.t) : Ball.t * list Event :=
  let startPos := Props.startPos props in
  let g := getGroundInfo (Vector3.x startPos) (Vector3.z startPos)
             (Props.faces props) in
  let resetY :=
    match g with
    | Some g => GroundInfo.y g + Props.radius props
    | None => Vector3.y startPos
    end in
  let st := Ball.with_position st
              (Vector3.mk (Vector3.x startPos) resetY (Vector3.z startPos)) in
  let st := Ball.with_velocity st Vector3.zero in
  let st := Ball.with_currentFaceId st None in
  (st, [onVectorUpdate Vectors.zero; onHighlightFace None]).

(** [g.id !== currentFaceId]. *)
Definition faceChanged (id : Z) (current : option Z) : bool :=
  match current with
  | Some k => negb (Z.eqb id k)
  | None => true
  end.

(** Lines 195-224: the branch taken on ground contact. *)
Definition resolveContact (now : R) (g : GroundInfo.t) (props : Props.t)
    (st : Ball.t) : Ball.t * list Event :=
  let radius := Props.radius props in
  let st := Ball.with_position st
              (Vector3.set_y (Ball.position st) (GroundInfo.y g + radius)) in
  let st := Ball.with_velocity st
              (Vector3.set_y (Ball.velocityRef st)
                 (Rmax 0 (Vector3.y (Ball.velocityRef st)))) in
  let pos := Ball.position st in
  let v := Ball.velocityRef st in
  let horizontalVel := Vector3.mk (Vector3.x v) 0 (Vector3.z v) in
  let st := Ball.with_contact st
              (Vector3.mk (Vector3.x pos) (GroundInfo.y g) (Vector3.z pos))
              horizontalVel
              (GroundInfo.normal g)
              (projectOnto horizontalVel (GroundInfo.normal g))
              (reflect horizontalVel (GroundInfo.normal g)) in
  let '(st, ev1) :=
    if Num.gtb (now - Ball.lastVectorUpdate st) 50 then
      (Ball.with_lastVectorUpdate st now,
       [onVectorUpdate (Vectors.mk (Ball.incomingRef st) (Ball.normalRef st)
                          (Ball.projectionRef st) (Ball.reflectionRef st))])
    else (st, []) in
  let '(st, ev2) :=
    if faceChanged (GroundInfo.id g) (Ball.currentFaceId st) then
      (Ball.with_currentFaceId st (Some (GroundInfo.id g)),
       [onHighlightFace (Some (GroundInfo.id g))])
    else (st, []) in
  (st, ev1 ++ ev2).

(** Lines 226-241: the branch taken without ground contact. *)
Definition noContact (now : R) (st : Ball.t) : Ball.t * list Event :=
  let '(st, ev1) :=
    match Ball.currentFaceId st with
    | Some _ => (Ball.with_currentFaceId st None, [onHighlightFace None])
    | None => (st, [])
    end in
  let '(st, ev2) :=
    if Num.gtb (now - Ball.lastVectorUpdate st) 100 then
      (Ball.with_lastVectorUpdate st now, [onVectorUpdate Vectors.zero])
    else (st, []) in
  (st, ev1 ++ ev2).

(** The test of line 194, on the result of the query of line 193. *)
Definition contactWith (props : Props.t) (st : Ball.t) : option GroundInfo.t :=
  match getGroundInfo (Vector3.x (Ball.position st))
          (Vector3.z (Ball.position st)) (Props.faces props) with
  | Some g =>
      if Num.leb (Vector3.y (Ball.position st))
           (GroundInfo.y g + Props.radius props)
      then Some g else None
  | None => None
  end.

(** Lines 138-245. *)
Definition keyboardStep (props : Props.t) (keys : Keys.t) (delta now : R)
    (st : Ball.t) : Ball.t * list Event :=
  let st := integrate keys delta st in
  if outOfBounds (Ball.position st) then recover props st
  else
    match contactWith props st with
    | Some g => resolveContact now g props st
    | None => noContact now st
    end.

(** *** Legacy launch mode *)

(** Lines 276-315, the body of the loop over the candidate faces: [None] is
    a [continue], [Some] is the bounce followed by [break].  [p] is the
    position object of the mesh itself, so [p.add] moves the ball. *)
Definition bounceOn (now radius : R) (st : Ball.t) (f : Face.t)
    : option (Ball.t * list Event) :=
  let p := Ball.position st in
  let v := Ball.velocityRef st in
  let n := Face.normal f in
  let approaching := Num.ltb (Vector3.dot v n) 0 in
  if negb approaching then None
  else
    let dist := Vector3.dot n (Vector3.sub p (Face.a f)) in
    if Num.gtb dist radius then None
    else
      let projPoint := Vector3.sub p (Vector3.multiplyScalar n dist) in
      if negb (pointInTriangle projPoint (Face.a f) (Face.b f) (Face.c f))
      then None
      else
        let penetration := radius - dist in
        let p :=
          if Num.gtb penetration 0
          then Vector3.add p (Vector3.multiplyScalar n (penetration + 1e-3))
          else p in
        let incoming := v in
        let projection := projectOnto incoming n in
        let reflection := reflect incoming n in
        let st := Ball.with_position st p in
        let st := Ball.with_velocity st reflection in
        let st := Ball.with_impact st
                    (Some (Impact.mk projPoint incoming n projection reflection
                             (now + 1500))) in
        Some (st, [onHighlightFace (Some (Face.id f))]).

Fixpoint bounceLoop (now radius : R) (st : Ball.t) (nearbyFaces : list Face.t)
    : option (Ball.t * list Event) :=
  match nearbyFaces with
  | [] => None
  | f :: rest =>
      match bounceOn now radius st f with
      | Some r => Some r
      | None => bounceLoop now radius st rest
      end
  end.

(** Lines 264-273. *)
Definition nearbyFaces (radius : R) (p : Vector3.t) (faces : list Face.t)
    : list Face.t :=
  let maxCheckDistance := radius + 2.0 in
  if (100 <? List.length faces)%nat then
    filter (fun f =>
              let distSq := Vector3.distanceToSquared (Face.centroid f) p in
              Num.ltb distSq (maxCheckDistance * maxCheckDistance))
           faces
  else faces.

(** Lines 318-321: [impact] is the state the frame started with; a
    [setImpact(null)] here comes after the one of a bounce and wins. *)
Definition clearExpired (now : R) (old : option Impact.t) (st : Ball.t) : Ball.t :=
  match old with
  | Some i => if Num.gtb now (Impact.until i) then Ball.with_impact st None else st
  | None => st
  end.

(** Lines 247-321. *)
Definition legacyStep (props : Props.t) (delta now : R) (st : Ball.t)
    : Ball.t * list Event :=
  if negb (Props.launched props) then (st, [])
  else
    let v := Ball.velocityRef st in
    let v := Vector3.set_y v (Vector3.y v - 9.8 * delta) in
    let old := Ball.impact st in
    let st := Ball.with_velocity st v in
    let st := Ball.with_position st
                (Vector3.addScaledVector (Ball.position st) v delta) in
    if Num.ltb (Vector3.lengthSq v) 0.01 then (st, [])
    else
      let near := nearbyFaces (Props.radius props) (Ball.position st)
                    (Props.faces props) in
      let '(st, ev) :=
        match bounceLoop now (Props.radius props) st near with
        | Some r => r
        | None => (st, [])
        end in
      (clearExpired now old st, ev).

(** The callback of [useFrame]: [dt] is the time since the last frame and
    [now] the reading of [performance.now()] during it. *)
Definition useFrame (props : Props.t) (keys : Keys.t) (dt now : R)
    (st : Ball.t) : Ball.t * list Event :=
  let delta := Rmin dt (1 / 60) in
  if Props.keyboardControl props then keyboardStep props keys delta now st
  else legacyStep props delta now st.

(** ** Vocabulary of the statements *)

(** The height at which the vertical line through [(x, z)] meets the plane
    of [f]. *)
Definition planeHeight (x z : R) (f : Face.t) : R :=
  let n := Face.normal f in
  Vector3.y (Face.a f)
  - (Vector3.x n * (x - Vector3.x (Face.a f))
     + Vector3.z n * (z - Vector3.z (Face.a f))) / Vector3.y n.

(** The footprint of [f] contains [(x, z)] at that height. *)
Definition footprintContains (x z : R) (f : Face.t) : bool :=
  pointInTriangle (Vector3.mk x (planeHeight x z f) z)
    (Face.a f) (Face.b f) (Face.c f).

(** A face the query considers: not near-vertical, footprint containing
    the point. *)
Definition supports (x z : R) (f : Face.t) : bool :=
  Num.geb (Rabs (Vector3.y (Face.normal f))) 1e-4 && footprintContains x z f.

(** The same with the test on the normal read as "the vertical component
    exceeds epsilon". *)
Definition supportsUpward (x z : R) (f : Face.t) : bool :=
  Num.gtb (Vector3.y (Face.normal f)) 1e-4 && footprintContains x z f.

Definition groundOf (x z : R) (f : Face.t) : GroundInfo.t :=
  GroundInfo.mk (planeHeight x z f) (Face.normal f) (Face.id f).

(** What the query returns on [faces]: nothing when no face supports the
    point; otherwise the supporting face that is strictly higher than every
    supporting face before it and at least as high as every one after. *)
Definition groundResult (x z : R) (faces : list Face.t)
    (r : option GroundInfo.t) : Prop :=
  match r with
  | None => forall f, In f faces -> supports x z f = false
  | Some g =>
      exists pre f post,
        faces = pre ++ f :: post
        /\ supports x z f = true
        /\ g = groundOf x z f
        /\ (forall f', In f' pre -> supports x z f' = true ->
                       planeHeight x z f' < planeHeight x z f)
        /\ (forall f', In f' post -> supports x z f' = true ->
                       planeHeight x z f' <= planeHeight x z f)
  end.

(** A triangle in the plane [y = 0] wound so that its normal points down. *)
Definition downFace : Face.t :=
  Face.mk 0 (Vector3.mk (-1) 0 (-1)) (Vector3.mk 1 0 (-1)) (Vector3.mk 0 0 1)
    (Vector3.mk 0 (-1) 0) (Vector3.mk 0 0 (-1 / 3)).

(** The vertex of the grid at indices [(i, j)]: its height is a function of
    the indices, the profile and the height scale alone. *)
Definition terrainVertex (p : TerrainParams.t) (i j : nat) : Vector3.t :=
  gridVertex (TerrainParams.size p)
    (TerrainParams.size p / TerrainParams.divisions p)
    (TerrainParams.height p) (TerrainParams.type p) i j.

(** The two triangles of the cell [(i, j)], numbered from [id]. *)
Definition cellFacesFrom (p : TerrainParams.t) (i j : nat) (id : Z) : list Face.t :=
  let a := terrainVertex p i j in
  let b := terrainVertex p (i + 1) j in
  let c := terrainVertex p i (j + 1) in
  let d := terrainVertex p (i + 1) (j + 1) in
  [ Face.mk id a c b (triangleNormal a c b) (triangleCentroid a c b);
    Face.mk (id + 1) b c d (triangleNormal b c d) (triangleCentroid b c d) ].

Definition cellFaces (p : TerrainParams.t) (i j : nat) : list Face.t :=
  cellFacesFrom p i j
    (Z.of_nat (2 * (i * countBelow (TerrainParams.divisions p) + j))).

(** The number is an integer. *)
Definition wholeNumber (n : R) : Prop := exists k : Z, n = IZR k.

(** The terrain in closed form: the cells in row-major order. *)
Definition terrainFaces (p : TerrainParams.t) : list Face.t :=
  flat_map (fun i => flat_map (fun j => cellFaces p i j)
                              (below (TerrainParams.divisions p)))
           (below (TerrainParams.divisions p)).

(** The effect of one iteration of the inner and of the outer face loop on
    the state [(faces, id)]. *)
Definition cellStep (p : TerrainParams.t) (i j : nat) (st : list Face.t * Z)
    : list Face.t * Z :=
  (fst st ++ cellFacesFrom p i j (snd st), (snd st + 2)%Z).

Definition rowStep (p : TerrainParams.t) (i : nat) (st : list Face.t * Z)
    : list Face.t * Z :=
  fold_left (fun st j => cellStep p i j st)
    (below (TerrainParams.divisions p)) st.

(** The query of line 193 as the step performs it: [None] when the step
    returned at line 189 and made no query, [Some r] when it made the query
    at the integrated position and got [r]. *)
Definition groundQuery (props : Props.t) (keys : Keys.t) (delta : R)
    (st : Ball.t) : option (option GroundInfo.t) :=
  let st := integrate keys delta st in
  if outOfBounds (Ball.position st) then None
  else Some (getGroundInfo (Vector3.x (Ball.position st))
               (Vector3.z (Ball.position st)) (Props.faces props)).

(** The branch without contact is taken when the query finds no face, or
    finds one with the ball above [g.y + radius]. *)
Definition airborne (props : Props.t) (st : Ball.t)
    (r : option GroundInfo.t) : Prop :=
  match r with
  | None => True
  | Some g => GroundInfo.y g + Props.radius props < Vector3.y (Ball.position st)
  end.

(** The three conditions under which legacy mode bounces on [f]: the ball
    approaches the face, its signed distance to the plane is at most the
    radius, its projection on the plane is inside the triangle. *)
Definition triggers (radius : R) (p v : Vector3.t) (f : Face.t) : bool :=
  let n := Face.normal f in
  let dist := Vector3.dot n (Vector3.sub p (Face.a f)) in
  Num.ltb (Vector3.dot v n) 0
  && Num.leb dist radius
  && pointInTriangle (Vector3.sub p (Vector3.multiplyScalar n dist))
       (Face.a f) (Face.b f) (Face.c f).

(** Index.tsx: [onVectorUpdate] is [setVectors], so the page shows the
    argument of the last call, and what it showed before when there is
    none. *)
Definition shownVectors (shown : Vectors.t) (events : list Event) : Vectors.t :=
  fold_left (fun cur e =>
               match e with
               | onVectorUpdate v => v
               | onHighlightFace _ => cur
               end) events shown.

(** A triangle in the plane [y = 0] around the origin, wound as the
    generator winds its faces, normal up. *)
Definition upFace : Face.t :=
  Face.mk 0 (Vector3.mk (-1) 0 (-1)) (Vector3.mk 0 0 1) (Vector3.mk 1 0 (-1))
    (Vector3.mk 0 1 0) (Vector3.mk 0 0 (-1 / 3)).

(** A ball resting on [upFace] near its edge and moving off it at 5 units
    per second, whose last contact was notified at time 1000: the refs and
    the page hold the vectors of that contact. *)
Definition staleVectors : Vectors.t :=
  Vectors.mk (Vector3.mk 5 0 0) (Vector3.mk 0 1 0) Vector3.zero
    (Vector3.mk 5 0 0).
Definition staleBall : Ball.t :=
  Ball.mk (Vector3.mk 0.98 0.25 (-0.99)) (Vector3.mk 5 0 0)
    (Vector3.mk 0.98 0 (-0.99)) (Vector3.mk 5 0 0) (Vector3.mk 0 1 0)
    Vector3.zero (Vector3.mk 5 0 0) None (Some 0%Z) 1000.

(** The frame before: the same ball 5/60 further back, [d] held down,
    the last notification long past. *)
Definition ballBeforeStale : Ball.t :=
  Ball.mk (Vector3.mk (0.98 - 5 / 60) 0.25 (-0.99)) Vector3.zero
    Vector3.zero Vector3.zero (Vector3.mk 0 1 0) Vector3.zero Vector3.zero
    None (Some 0%Z) 0.
Definition keyD : Keys.t := Keys.mk false false false true.

(** A ball of radius 0.25 over [upFace], in keyboard and in legacy mode. *)
Definition keyboardProps (faces : list Face.t) : Props.t :=
  Props.mk faces 0.25 (Vector3.mk 0 2 0) false true.
Definition legacyProps (faces : list Face.t) : Props.t :=
  Props.mk faces 0.25 (Vector3.mk 0 2 0) true false.

(** A ball at [pos] with velocity [v], nothing shown, no face tracked. *)
Definition ballAt (pos v : Vector3.t) : Ball.t :=
  Ball.mk pos v Vector3.zero Vector3.zero (Vector3.mk 0 1 0) Vector3.zero
    Vector3.zero None None 0.

(** ** The rest of the core

    The functions of the same files that the statements above do not
    reach. *)

(** [THREE.Vector3.setLength]: [normalize().multiplyScalar(length)]. *)
Definition setLength (u : Vector3.t) (l : R) : Vector3.t :=
  Vector3.multiplyScalar (Vector3.normalize u) l.

(** physics/math.ts, lines 33-36. *)
Definition planeSignedDistance (p p0 n : Vector3.t) : R :=
  Vector3.dot (Vector3.normalize n) (Vector3.sub p p0).

(** physics/math.ts, lines 59-63. *)
Definition clampMagnitude (v : Vector3.t) (max : R) : Vector3.t :=
  let len := Vector3.length v in
  if Num.leb len max then v else setLength v max.

(** Ball.tsx, lines 101-120: the effect run on mount, on reset and when the
    faces change.  The mesh is mounted; without faces the effect returns at
    once. *)
Definition resetEffect (props : Props.t) (st : Ball.t) : Ball.t * list Event :=
  if Nat.eqb (List.length (Props.faces props)) 0 then (st, [])
  else
    let startPos := Props.startPos props in
    let radius := Props.radius props in
    let g := getGroundInfo (Vector3.x startPos) (Vector3.z startPos)
               (Props.faces props) in
    let y :=
      match g with
      | Some g => GroundInfo.y g + radius
      | None => Vector3.y startPos
      end in
    let st := Ball.with_position st
                (Vector3.mk (Vector3.x startPos) y (Vector3.z startPos)) in
    let st := Ball.with_velocity st (Vector3.mk 0 0 0) in
    let st := Ball.with_contact st
                (Vector3.mk (Vector3.x startPos) (y - radius) (Vector3.z startPos))
                (Ball.incomingRef st)
                match g with
                | Some g => GroundInfo.normal g
                | None => Vector3.mk 0 1 0
                end
                (Vector3.mk 0 0 0)
                (Vector3.mk 0 0 0) in
    let st := Ball.with_impact st None in
    let st := Ball.with_currentFaceId st None in
    match g with
    | Some g =>
        (Ball.with_currentFaceId st (Some (GroundInfo.id g)),
         [onHighlightFace (Some (GroundInfo.id g))])
    | None => (st, [])
    end.

(** Index.tsx: [onHighlightFace] is [setHighlightedFaceId], so the page
    highlights the argument of the last call. *)
Definition shownHighlight (shown : option Z) (events : list Event) : option Z :=
  fold_left (fun cur e =>
               match e with
               | onHighlightFace id => id
               | onVectorUpdate _ => cur
               end) events shown.

(** __tests__/Ball.test.ts, lines 4-25: the free-fall integrator the unit
    tests exercise. *)
Module BallPhysics.
Record t : Type := mk {
  position : Vector3.t;
  velocity : Vector3.t;
  gravity : R
}.

Definition create (initialPosition : Vector3.t) : t :=
  mk initialPosition (Vector3.mk 0 0 0) (-9.81).

Definition update (ball : t) (deltaTime : R) : t :=
  let v := Vector3.set_y (velocity ball)
             (Vector3.y (velocity ball) + gravity ball * deltaTime) in
  mk (Vector3.addScaledVector (position ball) v deltaTime) v (gravity ball).

Definition setVelocity (ball : t) (x y z : R) : t :=
  mk (position ball) (Vector3.mk x y z) (gravity ball).

(** [for (let i = 0; i < n; i++) ball.update(deltaTime)]. *)
Fixpoint frames (n : nat) (deltaTime : R) (ball : t) : t :=
  match n with
  | O => ball
  | S k => frames k deltaTime (update ball deltaTime)
  end.
End BallPhysics.

(** The point of the plane of [a], [b], [c] with coordinates [u] along
    [c - a] and [v] along [b - a]. *)
Definition baryPoint (a b c : Vector3.t) (u v : R) : Vector3.t :=
  Vector3.add a
    (Vector3.add (Vector3.multiplyScalar (Vector3.sub c a) u)
                 (Vector3.multiplyScalar (Vector3.sub b a) v)).

(** The test the barycentric coordinates must pass. *)
Definition baryInside (u v : R) : bool :=
  Num.geb u (-1e-6) && Num.geb v (-1e-6) && Num.leb (u + v) (1 + 1e-6).

(** The vertices of a triangle are not collinear. *)
Definition nonDegenerate (a b c : Vector3.t) : Prop :=
  Vector3.cross (Vector3.sub c a) (Vector3.sub b a) <> Vector3.zero.

(** The stored normal of [f] is perpendicular to its two edges at [a]. *)
Definition normalPerpendicular (f : Face.t) : Prop :=
  Vector3.dot (Face.normal f) (Vector3.sub (Face.b f) (Face.a f)) = 0
  /\ Vector3.dot (Face.normal f) (Vector3.sub (Face.c f) (Face.a f)) = 0.

(** The bound of the absolute height of each profile, per unit of height
    scale. *)
Definition profileAmplitude (type : TerrainType) : R :=
  match type with
  | smooth => 0
  | hills => 0.7
  | valleys => 1.6
  | rough => 0.6
  end.

(** The state after the integration stage of a keyboard step. *)
Definition integrated (keys : Keys.t) (dt : R) (st : Ball.t) : Ball.t :=
  integrate keys (Rmin dt (1 / 60)) st.

(** The keys give a direction: the two pairs of opposite keys do not both
    cancel. *)
Definition hasInput (keys : Keys.t) : bool :=
  negb (Bool.eqb (Keys.d keys) (Keys.a keys))
  || negb (Bool.eqb (Keys.w keys) (Keys.s keys)).

(** * Properties *)

(** ** Numbers *)

Module NumFacts.
Import Num.

Lemma ltb_true p q : ltb p q = true <-> p < q.
Proof. unfold ltb; destruct (Rlt_dec p q); split; auto; discriminate. Qed.

Lemma ltb_false p q : ltb p q = false <-> q <= p.
Proof.
  unfold ltb; destruct (Rlt_dec p q); split; auto; try discriminate; lra.
Qed.

Lemma leb_true p q : leb p q = true <-> p <= q.
Proof. unfold leb; destruct (Rle_dec p q); split; auto; discriminate. Qed.

Lemma leb_false p q : leb p q = false <-> q < p.
Proof.
  unfold leb; destruct (Rle_dec p q); split; auto; try discriminate; lra.
Qed.

Lemma gtb_true p q : gtb p q = true <-> p > q.
Proof. unfold gtb; rewrite ltb_true; lra. Qed.

Lemma gtb_false p q : gtb p q = false <-> p <= q.
Proof. unfold gtb; rewrite ltb_false; lra. Qed.

Lemma geb_true p q : geb p q = true <-> p >= q.
Proof. unfold geb; rewrite leb_true; lra. Qed.

Lemma geb_false p q : geb p q = false <-> p < q.
Proof. unfold geb; rewrite leb_false; lra. Qed.

Lemma eqb_true p q : eqb p q = true <-> p = q.
Proof. unfold eqb; destruct (Req_dec_T p q); split; auto; discriminate. Qed.

Lemma eqb_false p q : eqb p q = false <-> p <> q.
Proof.
  unfold eqb; destruct (Req_dec_T p q); split; auto; try discriminate.
  intros H; contradiction.
Qed.

Lemma geb_ltb p q : geb p q = negb (ltb p q).
Proof.
  destruct (ltb p q) eqn:E; cbn.
  - apply geb_false, ltb_true, E.
  - apply geb_true. apply ltb_false in E. lra.
Qed.

Lemma gtb_leb p q : gtb p q = negb (leb p q).
Proof.
  destruct (leb p q) eqn:E; cbn.
  - apply gtb_false, leb_true, E.
  - apply gtb_true. apply leb_false in E. lra.
Qed.

End NumFacts.

(** Arithmetic on concrete numbers, [Math.abs], [Math.min] and [Math.max]
    included. *)
Ltac rsolve :=
  unfold Rabs, Rmin, Rmax;
  repeat match goal with
         | |- context [Rcase_abs ?p] => destruct (Rcase_abs p)
         | |- context [Rle_dec ?p ?q] => destruct (Rle_dec p q)
         end;
  lra.

(** Evaluation of the tests of the code on concrete numbers: each one is
    replaced by the boolean that arithmetic justifies. *)
Ltac num_true t :=
  let H := fresh in
  assert (H : t = true) by
    (first [ apply NumFacts.ltb_true | apply NumFacts.leb_true
           | apply NumFacts.gtb_true | apply NumFacts.geb_true
           | apply NumFacts.eqb_true ]; rsolve);
  rewrite H; clear H.

Ltac num_false t :=
  let H := fresh in
  assert (H : t = false) by
    (first [ apply NumFacts.ltb_false | apply NumFacts.leb_false
           | apply NumFacts.gtb_false | apply NumFacts.geb_false
           | apply NumFacts.eqb_false ]; rsolve);
  rewrite H; clear H.

Ltac num_eval_step :=
  match goal with
  | |- context [Num.ltb ?p ?q] => first [num_true (Num.ltb p q) | num_false (Num.ltb p q)]
  | |- context [Num.leb ?p ?q] => first [num_true (Num.leb p q) | num_false (Num.leb p q)]
  | |- context [Num.gtb ?p ?q] => first [num_true (Num.gtb p q) | num_false (Num.gtb p q)]
  | |- context [Num.geb ?p ?q] => first [num_true (Num.geb p q) | num_false (Num.geb p q)]
  | |- context [Num.eqb ?p ?q] => first [num_true (Num.eqb p q) | num_false (Num.eqb p q)]
  end.

Ltac num_eval := repeat (num_eval_step; cbn [andb orb negb]).

(** ** The ground query *)

Section GroundQuery.

Variables x z : R.

Lemma getGroundInfo_body_supports best f :
  supports x z f = true ->
  getGroundInfo_body x z best f =
    match best with
    | None => Some (groundOf x z f)
    | Some bst =>
        if Num.gtb (planeHeight x z f) (GroundInfo.y bst)
        then Some (groundOf x z f) else best
    end.
Proof.
  unfold supports, footprintContains, getGroundInfo_body.
  rewrite NumFacts.geb_ltb. intros H.
  apply andb_true_iff in H as [Hn Hp].
  apply negb_true_iff in Hn. rewrite Hn.
  fold (planeHeight x z f). rewrite Hp. reflexivity.
Qed.

Lemma getGroundInfo_body_skips best f :
  supports x z f = false -> getGroundInfo_body x z best f = best.
Proof.
  unfold supports, footprintContains, getGroundInfo_body.
  rewrite NumFacts.geb_ltb. intros H.
  destruct (Num.ltb (Rabs (Vector3.y (Face.normal f))) 1e-4); [reflexivity|].
  cbn in H. fold (planeHeight x z f). rewrite H. reflexivity.
Qed.

Lemma getGroundInfo_snoc faces f :
  getGroundInfo x z (faces ++ [f]) =
  getGroundInfo_body x z (getGroundInfo x z faces) f.
Proof. unfold getGroundInfo. rewrite fold_left_app. reflexivity. Qed.

Lemma getGroundInfo_result faces :
  groundResult x z faces (getGroundInfo x z faces).
Proof.
  induction faces as [|f faces IH] using rev_ind.
  - cbn. intros f [].
  - rewrite getGroundInfo_snoc.
    destruct (supports x z f) eqn:Hf.
    + rewrite (getGroundInfo_body_supports _ _ Hf).
      destruct (getGroundInfo x z faces) as [g|]; cbn in IH.
      * destruct IH as (pre & f0 & post & -> & Hf0 & -> & Hpre & Hpost).
        cbn [groundOf GroundInfo.y].
        destruct (Num.gtb (planeHeight x z f) (planeHeight x z f0)) eqn:Hgt.
        -- apply NumFacts.gtb_true in Hgt.
           exists (pre ++ f0 :: post), f, []. repeat split; auto.
           ++ intros f' Hin Hs. apply in_app_or in Hin as [Hin|[<-|Hin]].
              ** specialize (Hpre _ Hin Hs). lra.
              ** lra.
              ** specialize (Hpost _ Hin Hs). lra.
           ++ intros f' [].
        -- apply NumFacts.gtb_false in Hgt.
           exists pre, f0, (post ++ [f]). repeat split; auto.
           ++ rewrite <- app_assoc. reflexivity.
           ++ intros f' Hin Hs. apply in_app_or in Hin as [Hin|[<-|[]]]; auto.
      * exists faces, f, []. repeat split; auto.
        -- intros f' Hin Hs. rewrite (IH _ Hin) in Hs. discriminate.
        -- intros f' [].
    + rewrite (getGroundInfo_body_skips _ _ Hf).
      destruct (getGroundInfo x z faces) as [g|]; cbn in IH |- *.
      * destruct IH as (pre & f0 & post & -> & Hf0 & -> & Hpre & Hpost).
        exists pre, f0, (post ++ [f]). repeat split; auto.
        -- rewrite <- app_assoc. reflexivity.
        -- intros f' Hin Hs. apply in_app_or in Hin as [Hin|[<-|[]]]; auto.
           rewrite Hf in Hs. discriminate.
      * intros f' Hin. apply in_app_or in Hin as [Hin|[<-|[]]]; auto.
Qed.

End GroundQuery.

(** C1, as amended: on every list of faces and every [(x, z)], the query
    considers exactly the faces whose normal has a vertical component of
    absolute value at least 1e-4 (upward or downward) and whose footprint
    contains [(x, z)] at the height where the vertical line meets the plane
    of the face.  It returns none when there is no such face; otherwise it
    returns the height, normal and id of the one of maximum height, the
    first in list order among equals. *)
Theorem getGroundInfo_topmost_supporting_face (x z : R) (faces : list Face.t) :
  match getGroundInfo x z faces with
  | None => forall f, In f faces -> supports x z f = false
  | Some g =>
      exists pre f post,
        faces = pre ++ f :: post
        /\ supports x z f = true
        /\ g = GroundInfo.mk (planeHeight x z f) (Face.normal f) (Face.id f)
        /\ (forall f', In f' pre -> supports x z f' = true ->
                       planeHeight x z f' < planeHeight x z f)
        /\ (forall f', In f' post -> supports x z f' = true ->
                       planeHeight x z f' <= planeHeight x z f)
  end.
Proof. exact (getGroundInfo_result x z faces). Qed.

(** C1, as stated, fails on a downward-facing face: the vertical component
    of its normal is -1, which exceeds no positive epsilon, yet the query
    returns it. *)
Lemma getGroundInfo_returns_downward_face :
  (forall f, In f [downFace] -> supportsUpward 0 0 f = false)
  /\ getGroundInfo 0 0 [downFace]
     = Some (GroundInfo.mk 0 (Vector3.mk 0 (-1) 0) 0%Z).
Proof.
  split.
  - intros f [<-|[]]. unfold supportsUpward. cbn [downFace Face.normal Vector3.y].
    num_eval. reflexivity.
  - cbv [getGroundInfo fold_left getGroundInfo_body downFace pointInTriangle
         Face.normal Face.a Face.b Face.c Face.id Vector3.x Vector3.y Vector3.z
         Vector3.sub Vector3.dot].
    num_eval. do 2 f_equal. lra.
Qed.

(** ** The terrain generator *)

Lemma for_each_ok {S : Type} (l : list nat) (body : nat -> S -> result S)
    (step : nat -> S -> S) :
  (forall i st, In i l -> body i st = Ok (step i st)) ->
  forall st, for_each l body st = Ok (fold_left (fun st i => step i st) l st).
Proof.
  induction l as [|i l IH]; intros Hbody st; cbn.
  - reflexivity.
  - rewrite Hbody by (left; reflexivity). cbn.
    apply IH. intros k st' Hk. apply Hbody. right; exact Hk.
Qed.

Lemma vertexAt_grid (g : nat -> nat -> Vector3.t) (m i j : nat) :
  (i < m)%nat -> (j < m)%nat ->
  vertexAt (map (fun i => map (fun j => g i j) (seq 0 m)) (seq 0 m)) i j
  = Ok (g i j).
Proof.
  intros Hi Hj. unfold vertexAt.
  rewrite nth_error_map, nth_error_seq.
  apply Nat.ltb_lt in Hi. rewrite Hi. cbn.
  rewrite nth_error_map, nth_error_seq.
  apply Nat.ltb_lt in Hj. rewrite Hj. reflexivity.
Qed.

(** *** Loop counts *)

Lemma up_IZR k : up (IZR k) = (k + 1)%Z.
Proof. symmetry. apply tech_up; rewrite plus_IZR; lra. Qed.

Lemma countBelow_IZR k : countBelow (IZR k) = Z.to_nat k.
Proof. unfold countBelow. rewrite <- opp_IZR, up_IZR. f_equal. lia. Qed.

Lemma countUpto_IZR k : countUpto (IZR k) = Z.to_nat (k + 1).
Proof. unfold countUpto. rewrite up_IZR. reflexivity. Qed.

Lemma countBelow_nonpos d : d <= 0 -> countBelow d = 0%nat.
Proof.
  intros H. unfold countBelow. destruct (archimed (- d)) as [Hup _].
  assert (0 < up (- d))%Z by (apply lt_IZR; lra).
  lia.
Qed.

Lemma countBelow_pos d : 0 < d -> (0 < countBelow d)%nat.
Proof.
  intros H. unfold countBelow. destruct (archimed (- d)) as [_ Hup].
  assert (up (- d) < 1)%Z by (apply lt_IZR; lra).
  lia.
Qed.

(** For a positive bound the loop with [<=] runs as often as the loop with
    [<], or once more; once more exactly when the bound is an integer. *)
Lemma counts_adjacent d :
  0 < d -> countUpto d = countBelow d \/ countUpto d = S (countBelow d).
Proof.
  intros H. unfold countUpto, countBelow.
  destruct (archimed d) as [Ha1 Ha2]. destruct (archimed (- d)) as [Hb1 Hb2].
  assert (0 < up d)%Z by (apply lt_IZR; lra).
  assert (up (- d) < 1)%Z by (apply lt_IZR; lra).
  assert (up d - (1 - up (- d)) < 2)%Z
    by (apply lt_IZR; rewrite !minus_IZR; lra).
  assert (-1 < up d - (1 - up (- d)))%Z
    by (apply lt_IZR; rewrite !minus_IZR; lra).
  lia.
Qed.

Lemma counts_whole d :
  0 < d -> (countUpto d = S (countBelow d) <-> wholeNumber d).
Proof.
  intros H. split.
  - unfold countUpto, countBelow. intros E.
    destruct (archimed d) as [Ha1 Ha2]. destruct (archimed (- d)) as [Hb1 Hb2].
    assert (0 < up d)%Z by (apply lt_IZR; lra).
    assert (up (- d) < 1)%Z by (apply lt_IZR; lra).
    assert (Ez : up d = (2 - up (- d))%Z) by lia.
    exists (1 - up (- d))%Z.
    apply (f_equal IZR) in Ez. rewrite !minus_IZR in *. lra.
  - intros [k ->]. rewrite countBelow_IZR, countUpto_IZR.
    assert (0 < k)%Z by (apply lt_IZR; exact H). lia.
Qed.

Section Generator.

Variable p : TerrainParams.t.

Local Abbreviation d := (TerrainParams.divisions p).
Local Abbreviation n := (countBelow (TerrainParams.divisions p)).
Local Abbreviation vertices :=
  (buildVertices (TerrainParams.size p) (TerrainParams.divisions p)
     (TerrainParams.height p) (TerrainParams.type p)).

(** The face loops stay inside [vertices]: they do not run at all, or the
    vertex loops ran once more than they do. *)
Hypothesis in_range : n = 0%nat \/ countUpto d = S n.

Lemma vertexAt_vertices i j :
  (i <= n)%nat -> (j <= n)%nat -> (0 < n)%nat ->
  vertexAt vertices i j = Ok (terrainVertex p i j).
Proof.
  intros Hi Hj Hn. unfold buildVertices, upto.
  apply (vertexAt_grid (fun i j => terrainVertex p i j)); lia.
Qed.

Lemma buildCell_ok i j st :
  (i < n)%nat -> (j < n)%nat ->
  buildCell vertices i j st = Ok (cellStep p i j st).
Proof.
  intros Hi Hj. unfold buildCell.
  rewrite !vertexAt_vertices by lia. cbn [bind].
  destruct st as [faces id]. unfold cellStep, cellFacesFrom. cbn [fst snd].
  rewrite <- app_assoc. cbn [app].
  replace (id + 1 + 1)%Z with (id + 2)%Z by lia. reflexivity.
Qed.

Lemma in_below i : In i (below d) <-> (i < n)%nat.
Proof. clear in_range. unfold below. rewrite in_seq. lia. Qed.

Lemma row_ok i st :
  (i < n)%nat ->
  for_each (below d) (fun j st => buildCell vertices i j st) st
  = Ok (rowStep p i st).
Proof.
  intros Hi. unfold rowStep.
  apply (for_each_ok (below d) (fun j st => buildCell vertices i j st)
           (fun j st => cellStep p i j st)).
  intros j st' Hj. apply buildCell_ok; [exact Hi | apply in_below, Hj].
Qed.

Lemma cells_fold i faces j0 k :
  fold_left (fun st j => cellStep p i j st) (seq j0 k)
    (faces, Z.of_nat (2 * (i * n + j0)))
  = (faces ++ flat_map (fun j => cellFaces p i j) (seq j0 k),
     Z.of_nat (2 * (i * n + (j0 + k)))).
Proof.
  revert faces j0. induction k as [|k IH]; intros faces j0; cbn [seq fold_left flat_map].
  - rewrite app_nil_r. do 2 f_equal. lia.
  - unfold cellStep at 2. cbn [fst snd].
    replace (Z.of_nat (2 * (i * n + j0)) + 2)%Z
      with (Z.of_nat (2 * (i * n + S j0))) by lia.
    rewrite IH. rewrite <- app_assoc. unfold cellFaces at 2.
    do 2 f_equal. lia.
Qed.

Lemma rowStep_faces i faces :
  rowStep p i (faces, Z.of_nat (2 * (i * n)))
  = (faces ++ flat_map (fun j => cellFaces p i j) (below d),
     Z.of_nat (2 * (S i * n))).
Proof.
  unfold rowStep, below.
  replace (2 * (i * n))%nat with (2 * (i * n + 0))%nat by lia.
  rewrite cells_fold. do 2 f_equal. lia.
Qed.

Lemma rows_fold faces i0 k :
  fold_left (fun st i => rowStep p i st) (seq i0 k)
    (faces, Z.of_nat (2 * (i0 * n)))
  = (faces
       ++ flat_map (fun i => flat_map (fun j => cellFaces p i j) (below d))
            (seq i0 k),
     Z.of_nat (2 * ((i0 + k) * n))).
Proof.
  revert faces i0. induction k as [|k IH]; intros faces i0; cbn [seq fold_left flat_map].
  - rewrite app_nil_r. do 3 f_equal. lia.
  - rewrite rowStep_faces, IH, <- app_assoc. do 3 f_equal. lia.
Qed.

(** When the face loops stay inside [vertices], they compute the closed
    form. *)
Lemma buildTerrainFaces_in_range :
  buildTerrainFaces p = Ok (terrainFaces p).
Proof.
  unfold buildTerrainFaces.
  rewrite (for_each_ok (below d) _ (fun i st => rowStep p i st)).
  - cbn [bind]. f_equal. unfold below at 1.
    change 0%Z with (Z.of_nat (2 * (0 * n))).
    rewrite rows_fold. reflexivity.
  - intros i st Hi. apply row_ok, in_below, Hi.
Qed.

End Generator.

Lemma length_terrainFaces p :
  List.length (terrainFaces p)
  = (2 * (countBelow (TerrainParams.divisions p)
          * countBelow (TerrainParams.divisions p)))%nat.
Proof.
  unfold terrainFaces.
  rewrite (flat_map_constant_length
             (c := (2 * countBelow (TerrainParams.divisions p))%nat)).
  - unfold below. rewrite length_seq. lia.
  - intros i _. rewrite (flat_map_constant_length (c := 2%nat)).
    + unfold below. rewrite length_seq. lia.
    + reflexivity.
Qed.

(** The generator returns the closed form when the division count is an
    integer, and when it is zero or negative, integer or not. *)
Lemma buildTerrainFaces_closed_form p :
  TerrainParams.divisions p <= 0 \/ wholeNumber (TerrainParams.divisions p) ->
  buildTerrainFaces p = Ok (terrainFaces p).
Proof.
  intros H. apply buildTerrainFaces_in_range.
  destruct (Rle_dec (TerrainParams.divisions p) 0) as [Hle|Hpos].
  - left. apply countBelow_nonpos, Hle.
  - destruct H as [H|H]; [contradiction|].
    right. apply counts_whole; [lra | exact H].
Qed.

Lemma terrainFaces_nonpositive p :
  TerrainParams.divisions p <= 0 -> terrainFaces p = [].
Proof.
  intros H. unfold terrainFaces, below.
  rewrite (countBelow_nonpos _ H). reflexivity.
Qed.

Lemma buildTerrainFaces_no_cells p :
  TerrainParams.divisions p <= 0 -> buildTerrainFaces p = Ok [].
Proof.
  intros H. rewrite buildTerrainFaces_closed_form by (left; exact H).
  rewrite (terrainFaces_nonpositive p H). reflexivity.
Qed.

(** *** A division count that is not an integer *)

Lemma for_each_throws {S : Type} (l1 l2 : list nat) (x : nat)
    (body : nat -> S -> result S) (st : S) :
  (forall st', body x st' = TypeError) ->
  for_each (l1 ++ x :: l2) body st = TypeError.
Proof.
  intros Hx. revert st. induction l1 as [|i l1 IH]; intros st; cbn [app for_each].
  - rewrite Hx. reflexivity.
  - destruct (body i st) as [st'|]; cbn [bind]; [apply IH | reflexivity].
Qed.

Lemma vertexAt_beyond_row size d height type i j :
  (countUpto d <= j)%nat ->
  vertexAt (buildVertices size d height type) i j = TypeError.
Proof.
  intros Hj. unfold vertexAt, buildVertices, upto.
  rewrite nth_error_map.
  destruct (nth_error (seq 0 (countUpto d)) i) as [i'|]; cbn [option_map];
    [|reflexivity].
  rewrite nth_error_map, nth_error_seq.
  apply Nat.ltb_ge in Hj. rewrite Hj. reflexivity.
Qed.

Lemma buildCell_beyond_row size d height type i j st :
  (countUpto d <= j + 1)%nat ->
  buildCell (buildVertices size d height type) i j st = TypeError.
Proof.
  intros Hj. unfold buildCell.
  destruct (vertexAt _ i j) as [a|]; cbn [bind]; [|reflexivity].
  destruct (vertexAt _ (i + 1) j) as [b|]; cbn [bind]; [|reflexivity].
  rewrite (vertexAt_beyond_row size d height type i (j + 1) Hj). reflexivity.
Qed.

(** When the vertex loops run no more often than the face loops, the last
    cell of the first row reads [vertices[0][j + 1]] beyond the row, and the
    generator throws. *)
Lemma buildTerrainFaces_out_of_range p :
  0 < TerrainParams.divisions p ->
  countUpto (TerrainParams.divisions p) = countBelow (TerrainParams.divisions p) ->
  buildTerrainFaces p = TypeError.
Proof.
  intros Hpos Hc. pose proof (countBelow_pos _ Hpos) as Hn.
  assert (Erow : forall st,
             for_each (below (TerrainParams.divisions p))
               (fun j st =>
                  buildCell
                    (buildVertices (TerrainParams.size p)
                       (TerrainParams.divisions p) (TerrainParams.height p)
                       (TerrainParams.type p)) 0 j st) st = TypeError).
  { intros st. unfold below.
    destruct (countBelow (TerrainParams.divisions p)) as [|m] eqn:En; [lia|].
    rewrite seq_S. cbn [Nat.add].
    apply for_each_throws. intros st'.
    apply buildCell_beyond_row. lia. }
  assert (Erows : below (TerrainParams.divisions p)
                  = [] ++ 0%nat
                       :: seq 1 (countBelow (TerrainParams.divisions p) - 1)).
  { unfold below.
    destruct (countBelow (TerrainParams.divisions p)) as [|m]; [lia|].
    cbn [seq app Nat.sub]. rewrite Nat.sub_0_r. reflexivity. }
  unfold buildTerrainFaces. cbv zeta. rewrite Erows at 1.
  rewrite for_each_throws; [reflexivity|].
  intros st'. apply Erow.
Qed.

Lemma buildTerrainFaces_fractional p :
  0 < TerrainParams.divisions p ->
  ~ wholeNumber (TerrainParams.divisions p) ->
  buildTerrainFaces p = TypeError.
Proof.
  intros Hpos Hfrac. apply buildTerrainFaces_out_of_range; [exact Hpos|].
  destruct (counts_adjacent _ Hpos) as [E|E]; [exact E|].
  apply counts_whole in E; [contradiction | exact Hpos].
Qed.

(** Whenever the generator returns, it returns the closed form, and the
    division count is an integer or is not positive. *)
Lemma buildTerrainFaces_returns p faces :
  buildTerrainFaces p = Ok faces ->
  faces = terrainFaces p
  /\ (TerrainParams.divisions p <= 0 \/ wholeNumber (TerrainParams.divisions p)).
Proof.
  intros H.
  assert (W : TerrainParams.divisions p <= 0
              \/ wholeNumber (TerrainParams.divisions p)).
  { destruct (Rle_dec (TerrainParams.divisions p) 0) as [Hle|Hpos];
      [left; exact Hle|].
    right. assert (Hp : 0 < TerrainParams.divisions p) by lra.
    destruct (counts_adjacent _ Hp) as [E|E].
    - rewrite (buildTerrainFaces_out_of_range p Hp E) in H. discriminate.
    - apply counts_whole; assumption. }
  split; [|exact W].
  rewrite (buildTerrainFaces_closed_form p W) in H. injection H as <-.
  reflexivity.
Qed.

(** *** Normals of the generated faces *)

Lemma length_pos u : 0 < Vector3.lengthSq u -> 0 < Vector3.length u.
Proof. intros H. unfold Vector3.length. apply sqrt_lt_R0, H. Qed.

Lemma normalize_scale u :
  0 < Vector3.lengthSq u ->
  Vector3.normalize u = Vector3.multiplyScalar u (1 / Vector3.length u).
Proof.
  intros H. unfold Vector3.normalize, Vector3.divideScalar, Num.or_else.
  pose proof (length_pos u H) as Hl.
  destruct (Num.eqb (Vector3.length u) 0) eqn:E; [|reflexivity].
  apply NumFacts.eqb_true in E. lra.
Qed.

Lemma normalize_unit u :
  0 < Vector3.lengthSq u -> Vector3.length (Vector3.normalize u) = 1.
Proof.
  intros H. rewrite (normalize_scale u H).
  pose proof (length_pos u H) as Hl.
  assert (Hsq : Vector3.length u * Vector3.length u = Vector3.lengthSq u)
    by (apply sqrt_sqrt; lra).
  unfold Vector3.length at 1.
  replace (Vector3.lengthSq (Vector3.multiplyScalar u (1 / Vector3.length u)))
    with 1; [apply sqrt_1|].
  unfold Vector3.lengthSq, Vector3.multiplyScalar. cbn.
  unfold Vector3.lengthSq in Hsq.
  set (l := Vector3.length u) in *.
  transitivity ((l * l) * (1 / l) * (1 / l)); [field; lra|].
  rewrite Hsq. ring.
Qed.

Lemma normalize_y_pos u :
  0 < Vector3.y u -> 0 < Vector3.y (Vector3.normalize u).
Proof.
  intros Hy.
  assert (H : 0 < Vector3.lengthSq u) by (unfold Vector3.lengthSq; nra).
  rewrite (normalize_scale u H). cbn.
  pose proof (length_pos u H) as Hl.
  apply Rmult_lt_0_compat; [exact Hy|].
  apply Rdiv_lt_0_compat; lra.
Qed.

Lemma upward_normal u :
  0 < Vector3.y u ->
  Vector3.length (Vector3.normalize u) = 1
  /\ 0 < Vector3.y (Vector3.normalize u).
Proof.
  intros Hy. split; [|apply normalize_y_pos, Hy].
  apply normalize_unit. unfold Vector3.lengthSq. nra.
Qed.

Lemma cellFaces_normals p i j id f :
  0 < TerrainParams.size p -> 0 < TerrainParams.divisions p ->
  In f (cellFacesFrom p i j id) ->
  Vector3.length (Face.normal f) = 1 /\ 0 < Vector3.y (Face.normal f).
Proof.
  intros Hs Hd Hin.
  assert (Hstep : 0 < TerrainParams.size p / TerrainParams.divisions p).
  { apply Rdiv_lt_0_compat; assumption. }
  set (step := TerrainParams.size p / TerrainParams.divisions p) in *.
  assert (Hi : INR (i + 1) = INR i + 1) by (rewrite Nat.add_1_r; apply S_INR).
  assert (Hj : INR (j + 1) = INR j + 1) by (rewrite Nat.add_1_r; apply S_INR).
  destruct Hin as [<-|[<-|[]]]; cbn [Face.normal]; unfold triangleNormal;
    apply upward_normal;
    unfold terrainVertex, gridVertex; fold step; cbn; rewrite ?Hi, ?Hj; nra.
Qed.

Lemma terrainFaces_nonempty p :
  0 < TerrainParams.divisions p -> terrainFaces p <> [].
Proof.
  intros Hd E. pose proof (length_terrainFaces p) as L. rewrite E in L.
  pose proof (countBelow_pos _ Hd). cbn [List.length] in L. nia.
Qed.

(** C5: for every positive size, positive division count, every height
    scale and every profile, whenever the generator returns, it returns a
    non-empty list of faces, and the normal of every face has length 1 and a
    strictly positive vertical component; and it does return when the count
    is an integer. *)
Theorem buildTerrainFaces_unit_upward_normals (p : TerrainParams.t) :
  0 < TerrainParams.size p ->
  0 < TerrainParams.divisions p ->
  (forall faces,
     buildTerrainFaces p = Ok faces ->
     faces <> []
     /\ forall f, In f faces ->
          Vector3.length (Face.normal f) = 1 /\ 0 < Vector3.y (Face.normal f))
  /\ (wholeNumber (TerrainParams.divisions p) ->
      exists faces, buildTerrainFaces p = Ok faces).
Proof.
  intros Hs Hd. split.
  - intros faces H. apply buildTerrainFaces_returns in H as [-> _]. split.
    + apply terrainFaces_nonempty, Hd.
    + intros f Hin. unfold terrainFaces in Hin.
      apply in_flat_map in Hin as (i & _ & Hin).
      apply in_flat_map in Hin as (j & _ & Hin).
      exact (cellFaces_normals p i j _ f Hs Hd Hin).
  - intros W. exists (terrainFaces p).
    apply buildTerrainFaces_closed_form. right. exact W.
Qed.

Lemma buildTerrainFaces_unit_upward_normals_default :
  exists faces,
    buildTerrainFaces TerrainParams.default = Ok faces
    /\ faces <> []
    /\ forall f, In f faces ->
         Vector3.length (Face.normal f) = 1 /\ 0 < Vector3.y (Face.normal f).
Proof.
  assert (Hs : 0 < TerrainParams.size TerrainParams.default) by (cbn; lra).
  assert (Hd : 0 < TerrainParams.divisions TerrainParams.default) by (cbn; lra).
  assert (W : wholeNumber (TerrainParams.divisions TerrainParams.default))
    by (exists 6%Z; reflexivity).
  destruct (buildTerrainFaces_unit_upward_normals TerrainParams.default Hs Hd)
    as [Hall Hreturns].
  destruct (Hreturns W) as [faces H].
  exists faces. split; [exact H | exact (Hall faces H)].
Defined.

(** C4: two calls of the generator with the same size, division count,
    height scale and profile have the same outcome; when they return, they
    return the same list of faces, vertex by vertex, normal by normal,
    centroid by centroid and id by id, which is the closed form
    [terrainFaces], in which the height of the vertex at [(i, j)] is
    [generateTerrainHeight i j] of the profile and the scale, the
    perturbation of the rough profile being [pseudoRandom i j]; and they do
    return when the count is an integer, or is not positive. *)
Theorem buildTerrainFaces_deterministic (p1 p2 : TerrainParams.t) :
  TerrainParams.size p1 = TerrainParams.size p2 ->
  TerrainParams.divisions p1 = TerrainParams.divisions p2 ->
  TerrainParams.height p1 = TerrainParams.height p2 ->
  TerrainParams.type p1 = TerrainParams.type p2 ->
  buildTerrainFaces p1 = buildTerrainFaces p2
  /\ (forall faces,
        buildTerrainFaces p1 = Ok faces ->
        buildTerrainFaces p2 = Ok faces /\ faces = terrainFaces p1)
  /\ (TerrainParams.divisions p1 <= 0 \/ wholeNumber (TerrainParams.divisions p1) ->
      exists faces,
        buildTerrainFaces p1 = Ok faces
        /\ buildTerrainFaces p2 = Ok faces
        /\ faces = terrainFaces p1)
  /\ forall i j,
       Vector3.y (terrainVertex p1 i j)
       = generateTerrainHeight (INR i) (INR j) (TerrainParams.type p2)
           (TerrainParams.height p2).
Proof.
  intros Hs Hd Hh Ht.
  assert (E : p1 = p2) by (destruct p1, p2; cbn in *; congruence).
  rewrite <- E. split; [reflexivity|]. split; [|split].
  - intros faces H. split; [exact H|].
    apply buildTerrainFaces_returns in H as [-> _]. reflexivity.
  - intros W. exists (terrainFaces p1).
    rewrite (buildTerrainFaces_closed_form p1 W). repeat split.
  - reflexivity.
Qed.

Lemma buildTerrainFaces_deterministic_default :
  exists faces,
    buildTerrainFaces TerrainParams.default = Ok faces
    /\ buildTerrainFaces TerrainParams.default = Ok faces
    /\ faces = terrainFaces TerrainParams.default
    /\ forall i j,
         Vector3.y (terrainVertex TerrainParams.default i j)
         = generateTerrainHeight (INR i) (INR j) rough 2.5.
Proof.
  assert (W : TerrainParams.divisions TerrainParams.default <= 0
              \/ wholeNumber (TerrainParams.divisions TerrainParams.default))
    by (right; exists 6%Z; reflexivity).
  destruct (buildTerrainFaces_deterministic TerrainParams.default
              TerrainParams.default eq_refl eq_refl eq_refl eq_refl)
    as (_ & _ & Hreturns & Hheights).
  destruct (Hreturns W) as (faces & H1 & H2 & H3).
  exists faces. exact (conj H1 (conj H2 (conj H3 Hheights))).
Defined.

(** C6, as amended: called with a division count that is zero or negative,
    the generator does not fail; it returns normally, with no error, the
    empty list of faces. *)
Theorem buildTerrainFaces_nonpositive_count_returns_empty (p : TerrainParams.t) :
  TerrainParams.divisions p <= 0 -> buildTerrainFaces p = Ok [].
Proof. apply buildTerrainFaces_no_cells. Qed.

Lemma buildTerrainFaces_nonpositive_count_returns_empty_minus_three :
  buildTerrainFaces (TerrainParams.mk 10 (-3) 2.5 hills) = Ok [].
Proof.
  apply (buildTerrainFaces_nonpositive_count_returns_empty
           (TerrainParams.mk 10 (-3) 2.5 hills)).
  cbn. lra.
Defined.

(** C6, as stated, fails: with a division count of zero the generator
    returns the empty list and raises nothing. *)
Lemma buildTerrainFaces_zero_divisions_returns_empty :
  buildTerrainFaces (TerrainParams.mk 10 0 2.5 rough) = Ok [].
Proof. apply buildTerrainFaces_no_cells. cbn. lra. Qed.

(** ** The step in keyboard mode *)

(** Unfolding of the step on a concrete ball; [Vector3.normalize] is left
    folded, so that no square root appears on the paths taken below. *)
Ltac unfold_step :=
  cbv [useFrame keyboardStep legacyStep integrate applyInput applyGravity
       outOfBounds recover contactWith noContact groundQuery
       nearbyFaces bounceLoop bounceOn clearExpired triggers
       getGroundInfo getGroundInfo_body pointInTriangle fold_left
       keyboardProps legacyProps ballAt staleBall ballBeforeStale keyD
       upFace downFace
       Props.faces Props.radius Props.startPos Props.launched
       Props.keyboardControl
       Ball.position Ball.velocityRef Ball.contactRef Ball.incomingRef
       Ball.normalRef Ball.projectionRef Ball.reflectionRef Ball.impact
       Ball.currentFaceId Ball.lastVectorUpdate
       Ball.with_position Ball.with_velocity Ball.with_contact
       Ball.with_impact Ball.with_currentFaceId Ball.with_lastVectorUpdate
       Keys.w Keys.a Keys.s Keys.d Keys.none pressed
       Face.id Face.a Face.b Face.c Face.normal Face.centroid
       GroundInfo.y GroundInfo.normal GroundInfo.id
       Vector3.x Vector3.y Vector3.z Vector3.zero Vector3.add Vector3.sub
       Vector3.multiplyScalar Vector3.dot Vector3.lengthSq
       Vector3.addScaledVector Vector3.distanceToSquared
       Vector3.set_x Vector3.set_y Vector3.set_z
       speed gravity terrainSize resetThreshold
       negb andb orb fst snd app List.length Nat.ltb Nat.leb].

Lemma useFrame_keyboard props keys dt now st :
  Props.keyboardControl props = true ->
  useFrame props keys dt now st
  = keyboardStep props keys (Rmin dt (1 / 60)) now st.
Proof. intros H. unfold useFrame. rewrite H. reflexivity. Qed.

Lemma groundQuery_some props keys delta st r :
  groundQuery props keys delta st = Some r ->
  outOfBounds (Ball.position (integrate keys delta st)) = false
  /\ getGroundInfo (Vector3.x (Ball.position (integrate keys delta st)))
       (Vector3.z (Ball.position (integrate keys delta st)))
       (Props.faces props) = r.
Proof.
  unfold groundQuery.
  destruct (outOfBounds (Ball.position (integrate keys delta st))).
  - discriminate.
  - intros [= <-]. split; reflexivity.
Qed.

Lemma keyboardStep_contact props keys delta now st g :
  groundQuery props keys delta st = Some (Some g) ->
  Vector3.y (Ball.position (integrate keys delta st))
    <= GroundInfo.y g + Props.radius props ->
  keyboardStep props keys delta now st
  = resolveContact now g props (integrate keys delta st).
Proof.
  intros Hq Hy. apply groundQuery_some in Hq as [Hb Hg].
  unfold keyboardStep, contactWith. rewrite Hb, Hg.
  apply NumFacts.leb_true in Hy. rewrite Hy. reflexivity.
Qed.

Lemma resolveContact_body now g props st :
  Ball.position (fst (resolveContact now g props st))
    = Vector3.set_y (Ball.position st) (GroundInfo.y g + Props.radius props)
  /\ Ball.velocityRef (fst (resolveContact now g props st))
    = Vector3.set_y (Ball.velocityRef st)
        (Rmax 0 (Vector3.y (Ball.velocityRef st))).
Proof.
  unfold resolveContact.
  repeat match goal with
         | |- context [if ?t then _ else _] => destruct t
         end; cbn; split; reflexivity.
Qed.

(** C2: in keyboard mode, whenever the ground query at the integrated
    horizontal position finds a supporting face [g] and the vertical
    position is at or below [g.y + radius], the step sets [position.y] to
    exactly [g.y + radius] and clamps the vertical velocity at zero from
    below: the result is non-negative, an upward velocity is kept as it is
    and a downward one becomes zero. *)
Theorem keyboard_contact_snaps_and_clamps
    (props : Props.t) (keys : Keys.t) (dt now : R) (st : Ball.t)
    (g : GroundInfo.t) :
  Props.keyboardControl props = true ->
  let delta := Rmin dt (1 / 60) in
  let s1 := integrate keys delta st in
  groundQuery props keys delta st = Some (Some g) ->
  Vector3.y (Ball.position s1) <= GroundInfo.y g + Props.radius props ->
  let s2 := fst (useFrame props keys dt now st) in
  Vector3.y (Ball.position s2) = GroundInfo.y g + Props.radius props
  /\ 0 <= Vector3.y (Ball.velocityRef s2)
  /\ (0 <= Vector3.y (Ball.velocityRef s1) ->
      Vector3.y (Ball.velocityRef s2) = Vector3.y (Ball.velocityRef s1))
  /\ (Vector3.y (Ball.velocityRef s1) <= 0 ->
      Vector3.y (Ball.velocityRef s2) = 0).
Proof.
  intros Hk delta s1 Hq Hy s2. subst s2.
  rewrite (useFrame_keyboard _ _ _ _ _ Hk).
  fold delta. rewrite (keyboardStep_contact _ _ _ _ _ _ Hq Hy). fold s1.
  destruct (resolveContact_body now g props s1) as [-> ->]. cbn.
  repeat split.
  - apply Rmax_l.
  - intros H. apply Rmax_right, H.
  - intros H. apply Rmax_left, H.
Qed.

(** C10: in the contact branch of keyboard mode, the horizontal components
    of position and velocity keep the values they had after integration;
    [position.y] and [velocity.y] are the only components of the body
    reassigned. *)
Theorem keyboard_contact_keeps_horizontal_state
    (props : Props.t) (keys : Keys.t) (dt now : R) (st : Ball.t)
    (g : GroundInfo.t) :
  Props.keyboardControl props = true ->
  let delta := Rmin dt (1 / 60) in
  let s1 := integrate keys delta st in
  groundQuery props keys delta st = Some (Some g) ->
  Vector3.y (Ball.position s1) <= GroundInfo.y g + Props.radius props ->
  let s2 := fst (useFrame props keys dt now st) in
  Vector3.x (Ball.position s2) = Vector3.x (Ball.position s1)
  /\ Vector3.z (Ball.position s2) = Vector3.z (Ball.position s1)
  /\ Vector3.x (Ball.velocityRef s2) = Vector3.x (Ball.velocityRef s1)
  /\ Vector3.z (Ball.velocityRef s2) = Vector3.z (Ball.velocityRef s1)
  /\ Ball.position s2
     = Vector3.mk (Vector3.x (Ball.position s1))
         (GroundInfo.y g + Props.radius props)
         (Vector3.z (Ball.position s1))
  /\ Ball.velocityRef s2
     = Vector3.mk (Vector3.x (Ball.velocityRef s1))
         (Rmax 0 (Vector3.y (Ball.velocityRef s1)))
         (Vector3.z (Ball.velocityRef s1)).
Proof.
  intros Hk delta s1 Hq Hy s2. subst s2.
  rewrite (useFrame_keyboard _ _ _ _ _ Hk).
  fold delta. rewrite (keyboardStep_contact _ _ _ _ _ _ Hq Hy). fold s1.
  destruct (resolveContact_body now g props s1) as [-> ->]. cbn.
  repeat split.
Qed.

(** A ball resting on [upFace], one frame of 1/60 s, no key pressed: the
    query finds the face at height 0 and the ball has sunk below 0.25. *)
Lemma resting_ball_query :
  groundQuery (keyboardProps [upFace]) Keys.none (Rmin (1 / 60) (1 / 60))
    (ballAt (Vector3.mk 0 0.25 0) Vector3.zero)
  = Some (Some (GroundInfo.mk 0 (Vector3.mk 0 1 0) 0%Z)).
Proof. unfold_step. num_eval. do 3 f_equal. rsolve. Qed.

Lemma keyboard_contact_snaps_and_clamps_resting :
  let s1 := integrate Keys.none (Rmin (1 / 60) (1 / 60))
              (ballAt (Vector3.mk 0 0.25 0) Vector3.zero) in
  let s2 := fst (useFrame (keyboardProps [upFace]) Keys.none (1 / 60) 0
                   (ballAt (Vector3.mk 0 0.25 0) Vector3.zero)) in
  Vector3.y (Ball.position s2) = 0 + 0.25
  /\ 0 <= Vector3.y (Ball.velocityRef s2)
  /\ (0 <= Vector3.y (Ball.velocityRef s1) ->
      Vector3.y (Ball.velocityRef s2) = Vector3.y (Ball.velocityRef s1))
  /\ (Vector3.y (Ball.velocityRef s1) <= 0 ->
      Vector3.y (Ball.velocityRef s2) = 0).
Proof.
  apply (keyboard_contact_snaps_and_clamps (keyboardProps [upFace]) Keys.none
           (1 / 60) 0 (ballAt (Vector3.mk 0 0.25 0) Vector3.zero)
           (GroundInfo.mk 0 (Vector3.mk 0 1 0) 0%Z)).
  - reflexivity.
  - exact resting_ball_query.
  - unfold_step. num_eval. rsolve.
Defined.

Lemma keyboard_contact_keeps_horizontal_state_resting :
  let s1 := integrate Keys.none (Rmin (1 / 60) (1 / 60))
              (ballAt (Vector3.mk 0 0.25 0) Vector3.zero) in
  let s2 := fst (useFrame (keyboardProps [upFace]) Keys.none (1 / 60) 0
                   (ballAt (Vector3.mk 0 0.25 0) Vector3.zero)) in
  Vector3.x (Ball.position s2) = Vector3.x (Ball.position s1)
  /\ Vector3.z (Ball.position s2) = Vector3.z (Ball.position s1)
  /\ Vector3.x (Ball.velocityRef s2) = Vector3.x (Ball.velocityRef s1)
  /\ Vector3.z (Ball.velocityRef s2) = Vector3.z (Ball.velocityRef s1)
  /\ Ball.position s2
     = Vector3.mk (Vector3.x (Ball.position s1)) (0 + 0.25)
         (Vector3.z (Ball.position s1))
  /\ Ball.velocityRef s2
     = Vector3.mk (Vector3.x (Ball.velocityRef s1))
         (Rmax 0 (Vector3.y (Ball.velocityRef s1)))
         (Vector3.z (Ball.velocityRef s1)).
Proof.
  apply (keyboard_contact_keeps_horizontal_state (keyboardProps [upFace])
           Keys.none (1 / 60) 0 (ballAt (Vector3.mk 0 0.25 0) Vector3.zero)
           (GroundInfo.mk 0 (Vector3.mk 0 1 0) 0%Z)).
  - reflexivity.
  - exact resting_ball_query.
  - unfold_step. num_eval. rsolve.
Defined.

Lemma outOfBounds_true pos :
  Vector3.y pos < resetThreshold
  \/ Rabs (Vector3.x pos) > terrainSize * 0.6
  \/ Rabs (Vector3.z pos) > terrainSize * 0.6 ->
  outOfBounds pos = true.
Proof.
  unfold outOfBounds. intros [H|[H|H]].
  - apply NumFacts.ltb_true in H. rewrite H. reflexivity.
  - apply NumFacts.gtb_true in H. rewrite H, orb_true_r. reflexivity.
  - apply NumFacts.gtb_true in H. rewrite H. apply orb_true_r.
Qed.

(** C7: in keyboard mode, in any step where after integration the vertical
    position is below the threshold (-5) or a horizontal coordinate exceeds,
    in absolute value, 0.6 times the terrain size (10), the ball is put at
    its start horizontal coordinates, resting on the ground there (ground
    height plus radius) or at its raw start height when no face supports
    that point; its velocity is zero; zero vectors are sent to the display;
    the tracked face id is cleared and a null highlight is sent.  The step
    makes no ground query at the new position and leaves every other ref
    as it was. *)
Theorem keyboard_out_of_bounds_recovery
    (props : Props.t) (keys : Keys.t) (dt now : R) (st : Ball.t) :
  Props.keyboardControl props = true ->
  let delta := Rmin dt (1 / 60) in
  let pos := Ball.position (integrate keys delta st) in
  Vector3.y pos < resetThreshold
  \/ Rabs (Vector3.x pos) > terrainSize * 0.6
  \/ Rabs (Vector3.z pos) > terrainSize * 0.6 ->
  let startPos := Props.startPos props in
  let resetY :=
    match getGroundInfo (Vector3.x startPos) (Vector3.z startPos)
            (Props.faces props) with
    | Some g => GroundInfo.y g + Props.radius props
    | None => Vector3.y startPos
    end in
  useFrame props keys dt now st
  = (Ball.mk (Vector3.mk (Vector3.x startPos) resetY (Vector3.z startPos))
       (Vector3.mk 0 0 0)
       (Ball.contactRef st) (Ball.incomingRef st) (Ball.normalRef st)
       (Ball.projectionRef st) (Ball.reflectionRef st) (Ball.impact st)
       None (Ball.lastVectorUpdate st),
     [onVectorUpdate (Vectors.mk (Vector3.mk 0 0 0) (Vector3.mk 0 0 0)
                        (Vector3.mk 0 0 0) (Vector3.mk 0 0 0));
      onHighlightFace None])
  /\ groundQuery props keys delta st = None.
Proof.
  intros Hk delta pos Hout startPos resetY.
  apply outOfBounds_true in Hout.
  rewrite (useFrame_keyboard _ _ _ _ _ Hk). fold delta.
  unfold keyboardStep, groundQuery. fold pos in Hout |- *.
  rewrite Hout. split; reflexivity.
Qed.

Lemma keyboard_out_of_bounds_recovery_beyond_edge :
  useFrame (keyboardProps [upFace]) Keys.none (1 / 60) 0
    (ballAt (Vector3.mk 7 1 0) Vector3.zero)
  = (Ball.mk
       (Vector3.mk 0
          match getGroundInfo 0 0 [upFace] with
          | Some g => GroundInfo.y g + 0.25
          | None => 2
          end 0)
       (Vector3.mk 0 0 0)
       Vector3.zero Vector3.zero (Vector3.mk 0 1 0) Vector3.zero Vector3.zero
       None None 0,
     [onVectorUpdate (Vectors.mk (Vector3.mk 0 0 0) (Vector3.mk 0 0 0)
                        (Vector3.mk 0 0 0) (Vector3.mk 0 0 0));
      onHighlightFace None])
  /\ groundQuery (keyboardProps [upFace]) Keys.none (Rmin (1 / 60) (1 / 60))
       (ballAt (Vector3.mk 7 1 0) Vector3.zero) = None.
Proof.
  apply (keyboard_out_of_bounds_recovery (keyboardProps [upFace]) Keys.none
           (1 / 60) 0 (ballAt (Vector3.mk 7 1 0) Vector3.zero)).
  - reflexivity.
  - right; left. unfold_step. num_eval. rsolve.
Defined.

Lemma noContact_body now st :
  Ball.position (fst (noContact now st)) = Ball.position st
  /\ Ball.velocityRef (fst (noContact now st)) = Ball.velocityRef st.
Proof.
  unfold noContact.
  destruct (Ball.currentFaceId st);
    destruct (Num.gtb (now - _) 100); cbn; split; reflexivity.
Qed.

Lemma keyboardStep_noContact props keys delta now st r :
  groundQuery props keys delta st = Some r ->
  airborne props (integrate keys delta st) r ->
  keyboardStep props keys delta now st
  = noContact now (integrate keys delta st).
Proof.
  intros Hq Ha. apply groundQuery_some in Hq as [Hb Hg].
  unfold keyboardStep, contactWith. rewrite Hb, Hg.
  destruct r as [g|]; [|reflexivity].
  unfold airborne in Ha. apply NumFacts.leb_false in Ha. rewrite Ha.
  reflexivity.
Qed.

Lemma applyInput_y keys v : Vector3.y (applyInput keys v) = Vector3.y v.
Proof.
  unfold applyInput.
  destruct (Num.gtb _ 0); reflexivity.
Qed.

(** C3, as amended: in keyboard mode, for every [dt > 0], starting from
    zero vertical velocity, a step that neither recovers from out of bounds
    nor touches the ground ends with vertical velocity
    [gravity * min(dt, 1/60)], which is [gravity * dt] when [dt <= 1/60];
    applying gravity leaves the horizontal components of the velocity as
    the input stage set them. *)
Theorem keyboard_gravity_velocity
    (props : Props.t) (keys : Keys.t) (dt now : R) (st : Ball.t)
    (r : option GroundInfo.t) :
  Props.keyboardControl props = true ->
  0 < dt ->
  Vector3.y (Ball.velocityRef st) = 0 ->
  let delta := Rmin dt (1 / 60) in
  groundQuery props keys delta st = Some r ->
  airborne props (integrate keys delta st) r ->
  let v2 := Ball.velocityRef (fst (useFrame props keys dt now st)) in
  Vector3.y v2 = gravity * Rmin dt (1 / 60)
  /\ (dt <= 1 / 60 -> Vector3.y v2 = gravity * dt)
  /\ Vector3.x v2 = Vector3.x (applyInput keys (Ball.velocityRef st))
  /\ Vector3.z v2 = Vector3.z (applyInput keys (Ball.velocityRef st))
  /\ (forall d v, Vector3.x (applyGravity d v) = Vector3.x v
                  /\ Vector3.z (applyGravity d v) = Vector3.z v).
Proof.
  intros Hk Hdt Hv delta Hq Ha v2. subst v2.
  rewrite (useFrame_keyboard _ _ _ _ _ Hk). fold delta.
  rewrite (keyboardStep_noContact _ _ _ now _ _ Hq Ha).
  destruct (noContact_body now (integrate keys delta st)) as [_ ->].
  cbn. rewrite applyInput_y, Hv.
  repeat split.
  - lra.
  - intros Hle. subst delta. rewrite Rmin_left by exact Hle. lra.
Qed.

Lemma keyboard_gravity_velocity_free_fall :
  let v2 := Ball.velocityRef
              (fst (useFrame (keyboardProps []) Keys.none (1 / 120) 0
                      (ballAt (Vector3.mk 0 2 0) Vector3.zero))) in
  Vector3.y v2 = gravity * Rmin (1 / 120) (1 / 60)
  /\ (1 / 120 <= 1 / 60 -> Vector3.y v2 = gravity * (1 / 120))
  /\ Vector3.x v2 = Vector3.x (applyInput Keys.none Vector3.zero)
  /\ Vector3.z v2 = Vector3.z (applyInput Keys.none Vector3.zero)
  /\ (forall d v, Vector3.x (applyGravity d v) = Vector3.x v
                  /\ Vector3.z (applyGravity d v) = Vector3.z v).
Proof.
  apply (keyboard_gravity_velocity (keyboardProps []) Keys.none (1 / 120) 0
           (ballAt (Vector3.mk 0 2 0) Vector3.zero) None).
  - reflexivity.
  - lra.
  - reflexivity.
  - unfold_step. num_eval. reflexivity.
  - exact I.
Defined.

(** C3, as stated, fails.  With [dt = 1] the step integrates 1/60 s only,
    and a ball in free fall ends with vertical velocity [gravity / 60], not
    [gravity * 1].  And a ball in free fall that crosses the threshold -5
    is put back with velocity zero. *)
Lemma long_frame_integrates_one_sixtieth_second :
  groundQuery (keyboardProps []) Keys.none (Rmin 1 (1 / 60))
    (ballAt (Vector3.mk 0 2 0) Vector3.zero) = Some None
  /\ Vector3.y (Ball.velocityRef
                  (fst (useFrame (keyboardProps []) Keys.none 1 0
                          (ballAt (Vector3.mk 0 2 0) Vector3.zero))))
     = gravity * (1 / 60)
  /\ gravity * (1 / 60) <> gravity * 1
  /\ Vector3.y (Ball.velocityRef
                  (fst (useFrame (keyboardProps []) Keys.none (1 / 60) 0
                          (ballAt (Vector3.mk 0 (-5) 0) Vector3.zero))))
     = 0
  /\ 0 <> gravity * (1 / 60).
Proof.
  repeat split.
  - unfold_step. num_eval. reflexivity.
  - unfold_step. num_eval. rsolve.
  - unfold gravity. lra.
  - unfold_step. num_eval. reflexivity.
  - unfold gravity. lra.
Qed.

(** C8, as amended: in a keyboard-mode step whose ground query finds no
    face, or finds one with the ball above [g.y + radius], the tracked face
    id is cleared, a null highlight being sent if one was set; position and
    velocity stay as integrated and the contact refs stay as they were,
    whatever the throttle decides.  Zero vectors are sent to the display
    only when more than 100 ms have passed since the last vector
    notification; otherwise nothing is sent and the display keeps the
    vectors it showed. *)
Theorem keyboard_no_contact_clears_throttled
    (props : Props.t) (keys : Keys.t) (dt now : R) (st : Ball.t)
    (r : option GroundInfo.t) :
  Props.keyboardControl props = true ->
  let delta := Rmin dt (1 / 60) in
  let s1 := integrate keys delta st in
  groundQuery props keys delta st = Some r ->
  airborne props s1 r ->
  let s2 := fst (useFrame props keys dt now st) in
  let events := snd (useFrame props keys dt now st) in
  let due := Num.gtb (now - Ball.lastVectorUpdate st) 100 in
  Ball.currentFaceId s2 = None
  /\ Ball.position s2 = Ball.position s1
  /\ Ball.velocityRef s2 = Ball.velocityRef s1
  /\ Ball.contactRef s2 = Ball.contactRef st
  /\ Ball.incomingRef s2 = Ball.incomingRef st
  /\ Ball.normalRef s2 = Ball.normalRef st
  /\ Ball.projectionRef s2 = Ball.projectionRef st
  /\ Ball.reflectionRef s2 = Ball.reflectionRef st
  /\ Ball.lastVectorUpdate s2 = (if due then now else Ball.lastVectorUpdate st)
  /\ events
     = match Ball.currentFaceId st with
       | Some _ => [onHighlightFace None]
       | None => []
       end ++ (if due then [onVectorUpdate Vectors.zero] else [])
  /\ forall shown,
       shownVectors shown events = if due then Vectors.zero else shown.
Proof.
  intros Hk delta s1 Hq Ha s2 events due. subst s2 events.
  rewrite (useFrame_keyboard _ _ _ _ _ Hk). fold delta.
  rewrite (keyboardStep_noContact _ _ _ now _ _ Hq Ha). fold s1.
  unfold noContact.
  change (Ball.currentFaceId s1) with (Ball.currentFaceId st).
  destruct (Ball.currentFaceId st) as [k|] eqn:E;
    cbn [Ball.lastVectorUpdate Ball.with_currentFaceId];
    change (Ball.lastVectorUpdate s1) with (Ball.lastVectorUpdate st);
    fold due; destruct due; cbn; repeat split; exact E.
Qed.

Lemma Vector3_eq u v :
  Vector3.x u = Vector3.x v -> Vector3.y u = Vector3.y v ->
  Vector3.z u = Vector3.z v -> u = v.
Proof. destruct u, v; cbn; intros -> -> ->; reflexivity. Qed.

Lemma normalize_unit_axis u :
  Vector3.lengthSq u = 1 -> Vector3.normalize u = u.
Proof.
  intros H. unfold Vector3.normalize, Vector3.length, Num.or_else.
  rewrite H, sqrt_1.
  assert (E : Num.eqb 1 0 = false) by (apply NumFacts.eqb_false; lra).
  rewrite E. apply Vector3_eq; cbn; lra.
Qed.

(** [staleBall] is the state one contact step leaves: from
    [ballBeforeStale], with [d] held down, the step at time 1000 resolves
    the contact with [upFace] and notifies [staleVectors]. *)
Lemma staleBall_after_contact :
  useFrame (keyboardProps [upFace]) keyD (1 / 60) 1000 ballBeforeStale
  = (staleBall, [onVectorUpdate staleVectors]).
Proof.
  unfold useFrame, keyboardStep. cbn [keyboardProps Props.keyboardControl].
  assert (Ei : integrate keyD (Rmin (1 / 60) (1 / 60)) ballBeforeStale
               = Ball.with_position
                   (Ball.with_velocity ballBeforeStale
                      (Vector3.mk 5 (gravity * (1 / 60)) 0))
                   (Vector3.mk 0.98 (0.25 + gravity * (1 / 60) * (1 / 60))
                      (-0.99))).
  { unfold integrate, applyInput. cbn [keyD Keys.d Keys.a Keys.w Keys.s pressed].
    assert (L : Vector3.lengthSq (Vector3.mk (1 - 0) 0 (0 - 0)) = 1)
      by (cbv [Vector3.lengthSq Vector3.x Vector3.y Vector3.z]; lra).
    rewrite (normalize_unit_axis _ L), L. num_eval.
    unfold_step. f_equal; apply Vector3_eq; cbn; rsolve. }
  rewrite Ei. clear Ei.
  unfold_step. num_eval.
  unfold resolveContact, projectOnto, reflect, normalize.
  assert (L : Vector3.lengthSq (Vector3.mk 0 1 0) = 1)
    by (cbv [Vector3.lengthSq Vector3.x Vector3.y Vector3.z]; lra).
  cbn [GroundInfo.normal GroundInfo.y GroundInfo.id].
  rewrite (normalize_unit_axis _ L), L.
  unfold_step. num_eval.
  change (faceChanged 0 (Some 0%Z)) with false. cbv iota beta.
  unfold staleVectors, Vector3.zero.
  f_equal.
  - f_equal; apply Vector3_eq; cbn; rsolve.
  - do 3 f_equal; apply Vector3_eq; cbn; rsolve.
Qed.

Lemma keyboard_no_contact_clears_throttled_off_edge :
  let s1 := integrate Keys.none (Rmin (1 / 60) (1 / 60)) staleBall in
  let s2 := fst (useFrame (keyboardProps [upFace]) Keys.none (1 / 60) 1016
                   staleBall) in
  let events := snd (useFrame (keyboardProps [upFace]) Keys.none (1 / 60) 1016
                       staleBall) in
  let due := Num.gtb (1016 - Ball.lastVectorUpdate staleBall) 100 in
  Ball.currentFaceId s2 = None
  /\ Ball.position s2 = Ball.position s1
  /\ Ball.velocityRef s2 = Ball.velocityRef s1
  /\ Ball.contactRef s2 = Ball.contactRef staleBall
  /\ Ball.incomingRef s2 = Ball.incomingRef staleBall
  /\ Ball.normalRef s2 = Ball.normalRef staleBall
  /\ Ball.projectionRef s2 = Ball.projectionRef staleBall
  /\ Ball.reflectionRef s2 = Ball.reflectionRef staleBall
  /\ Ball.lastVectorUpdate s2
     = (if due then 1016 else Ball.lastVectorUpdate staleBall)
  /\ events
     = match Ball.currentFaceId staleBall with
       | Some _ => [onHighlightFace None]
       | None => []
       end ++ (if due then [onVectorUpdate Vectors.zero] else [])
  /\ forall shown,
       shownVectors shown events = if due then Vectors.zero else shown.
Proof.
  apply (keyboard_no_contact_clears_throttled (keyboardProps [upFace])
           Keys.none (1 / 60) 1016 staleBall None).
  - reflexivity.
  - unfold_step. num_eval. reflexivity.
  - exact I.
Defined.

(** C8, as stated, fails.  A contact step at time 1000 notifies
    [staleVectors] and leaves [staleBall]; 16 ms later the ball rolls off
    the edge of the only face: the query finds no face, the step sends the
    null highlight and nothing else, the refs keep the incoming and
    reflection vectors of the contact, and the page goes on showing the
    vectors of the contact. *)
Lemma keyboard_no_contact_keeps_stale_vectors :
  useFrame (keyboardProps [upFace]) keyD (1 / 60) 1000 ballBeforeStale
  = (staleBall, [onVectorUpdate staleVectors])
  /\ groundQuery (keyboardProps [upFace]) Keys.none (Rmin (1 / 60) (1 / 60))
    staleBall = Some None
  /\ snd (useFrame (keyboardProps [upFace]) Keys.none (1 / 60) 1016 staleBall)
     = [onHighlightFace None]
  /\ Ball.incomingRef
       (fst (useFrame (keyboardProps [upFace]) Keys.none (1 / 60) 1016 staleBall))
     = Vector3.mk 5 0 0
  /\ Ball.reflectionRef
       (fst (useFrame (keyboardProps [upFace]) Keys.none (1 / 60) 1016 staleBall))
     = Vector3.mk 5 0 0
  /\ shownVectors staleVectors
       (snd (useFrame (keyboardProps [upFace]) Keys.none (1 / 60) 1016 staleBall))
     = staleVectors
  /\ staleVectors <> Vectors.zero.
Proof.
  assert (E : useFrame (keyboardProps [upFace]) Keys.none (1 / 60) 1016 staleBall
              = (Ball.with_currentFaceId
                   (integrate Keys.none (Rmin (1 / 60) (1 / 60)) staleBall) None,
                 [onHighlightFace None])).
  { unfold_step. num_eval. reflexivity. }
  rewrite E. split; [exact staleBall_after_contact|]. repeat split.
  - unfold_step. num_eval. reflexivity.
  - intros H. apply (f_equal Vectors.velocity) in H.
    apply (f_equal Vector3.x) in H. cbn in H. lra.
Qed.

(** ** The step in legacy launch mode *)

Lemma bounceOn_triggers now radius st f :
  triggers radius (Ball.position st) (Ball.velocityRef st) f = true ->
  bounceOn now radius st f
  = let p := Ball.position st in
    let v := Ball.velocityRef st in
    let n := Face.normal f in
    let dist := Vector3.dot n (Vector3.sub p (Face.a f)) in
    let penetration := radius - dist in
    let p' := if Num.gtb penetration 0
              then Vector3.add p (Vector3.multiplyScalar n (penetration + 1e-3))
              else p in
    Some (Ball.with_impact
            (Ball.with_velocity (Ball.with_position st p') (reflect v n))
            (Some (Impact.mk (Vector3.sub p (Vector3.multiplyScalar n dist))
                     v n (projectOnto v n) (reflect v n) (now + 1500))),
          [onHighlightFace (Some (Face.id f))]).
Proof.
  unfold triggers, bounceOn. intros H.
  apply andb_true_iff in H as [H Hin]. apply andb_true_iff in H as [Hv Hd].
  rewrite Hv. cbn [negb].
  rewrite NumFacts.gtb_leb, Hd. cbn [negb].
  rewrite Hin. reflexivity.
Qed.

Lemma bounceOn_skips now radius st f :
  triggers radius (Ball.position st) (Ball.velocityRef st) f = false ->
  bounceOn now radius st f = None.
Proof.
  unfold triggers, bounceOn. intros H.
  destruct (Num.ltb _ 0); [|reflexivity]. cbn [negb].
  rewrite NumFacts.gtb_leb.
  destruct (Num.leb _ radius); [|reflexivity]. cbn [negb].
  cbn in H. rewrite H. reflexivity.
Qed.

Lemma bounceLoop_first now radius st pre f post :
  (forall f', In f' pre ->
     triggers radius (Ball.position st) (Ball.velocityRef st) f' = false) ->
  triggers radius (Ball.position st) (Ball.velocityRef st) f = true ->
  bounceLoop now radius st (pre ++ f :: post) = bounceOn now radius st f.
Proof.
  intros Hpre Hf. induction pre as [|f0 pre IH]; cbn [app bounceLoop].
  - rewrite (bounceOn_triggers _ _ _ _ Hf). reflexivity.
  - rewrite (bounceOn_skips now radius st f0) by (apply Hpre; left; reflexivity).
    apply IH. intros f' Hin. apply Hpre. right; exact Hin.
Qed.

Lemma nearbyFaces_small radius p faces :
  (List.length faces <= 100)%nat -> nearbyFaces radius p faces = faces.
Proof.
  intros H. unfold nearbyFaces.
  apply Nat.ltb_ge in H. rewrite H. reflexivity.
Qed.

(** C9, as amended: in legacy launch mode, once launched, whenever the
    velocity after gravity has squared length at least 0.01 and some
    candidate face satisfies the three conditions at the integrated
    position (the candidates are all the faces when there are at most 100,
    and otherwise the faces whose centroid is closer than [radius + 2]),
    the step resolves one bounce, on the first such candidate in list
    order: when the penetration [radius - dist] is positive it moves the
    ball along the normal by the penetration plus 1e-3, it sets the velocity
    to the reflection of the incoming velocity about the normal of that
    face, and it highlights that face alone. *)
Theorem legacy_first_triggering_face_bounces
    (props : Props.t) (keys : Keys.t) (dt now : R) (st : Ball.t)
    (pre post : list Face.t) (f : Face.t) :
  Props.keyboardControl props = false ->
  Props.launched props = true ->
  let delta := Rmin dt (1 / 60) in
  let radius := Props.radius props in
  let v1 := Vector3.set_y (Ball.velocityRef st)
              (Vector3.y (Ball.velocityRef st) - 9.8 * delta) in
  let p1 := Vector3.addScaledVector (Ball.position st) v1 delta in
  0.01 <= Vector3.lengthSq v1 ->
  nearbyFaces radius p1 (Props.faces props) = pre ++ f :: post ->
  (forall f', In f' pre -> triggers radius p1 v1 f' = false) ->
  triggers radius p1 v1 f = true ->
  let n := Face.normal f in
  let penetration := radius - Vector3.dot n (Vector3.sub p1 (Face.a f)) in
  let s2 := fst (useFrame props keys dt now st) in
  Ball.velocityRef s2 = reflect v1 n
  /\ Ball.position s2
     = (if Num.gtb penetration 0
        then Vector3.add p1 (Vector3.multiplyScalar n (penetration + 1e-3))
        else p1)
  /\ snd (useFrame props keys dt now st) = [onHighlightFace (Some (Face.id f))]
  /\ ((List.length (Props.faces props) <= 100)%nat ->
      Props.faces props = pre ++ f :: post).
Proof.
  intros Hk Hl delta radius v1 p1 Hfast Hnear Hpre Hf n penetration s2.
  set (s1 := Ball.with_position (Ball.with_velocity st v1) p1).
  assert (E : useFrame props keys dt now st
              = match bounceOn now radius s1 f with
                | Some (s, ev) => (clearExpired now (Ball.impact st) s, ev)
                | None => (st, [])
                end).
  { unfold useFrame, legacyStep. rewrite Hk, Hl. cbn [negb].
    fold delta. fold v1.
    apply NumFacts.ltb_false in Hfast. rewrite Hfast.
    change (Ball.position (Ball.with_velocity st v1)) with (Ball.position st).
    fold p1. fold s1.
    change (Ball.position s1) with p1.
    fold radius. rewrite Hnear.
    rewrite (bounceLoop_first now radius s1 pre f post Hpre Hf).
    rewrite (bounceOn_triggers now radius s1 f Hf). reflexivity. }
  subst s2. rewrite E.
  rewrite (bounceOn_triggers now radius s1 f Hf).
  cbn [Ball.position Ball.with_position Ball.with_velocity Ball.velocityRef s1].
  fold n. fold penetration.
  unfold clearExpired.
  repeat split.
  - destruct (Ball.impact st) as [i|]; [destruct (Num.gtb now _)|]; reflexivity.
  - destruct (Ball.impact st) as [i|]; [destruct (Num.gtb now _)|]; reflexivity.
  - intros Hlen. rewrite <- Hnear. symmetry. apply nearbyFaces_small, Hlen.
Qed.

Lemma legacy_first_triggering_face_bounces_falling :
  let st := ballAt (Vector3.mk 0 0.2 0) (Vector3.mk 0 (-1) 0) in
  let props := legacyProps [upFace] in
  let delta := Rmin (1 / 60) (1 / 60) in
  let v1 := Vector3.set_y (Ball.velocityRef st)
              (Vector3.y (Ball.velocityRef st) - 9.8 * delta) in
  let p1 := Vector3.addScaledVector (Ball.position st) v1 delta in
  let n := Face.normal upFace in
  let penetration := 0.25 - Vector3.dot n (Vector3.sub p1 (Face.a upFace)) in
  let s2 := fst (useFrame props Keys.none (1 / 60) 0 st) in
  Ball.velocityRef s2 = reflect v1 n
  /\ Ball.position s2
     = (if Num.gtb penetration 0
        then Vector3.add p1 (Vector3.multiplyScalar n (penetration + 1e-3))
        else p1)
  /\ snd (useFrame props Keys.none (1 / 60) 0 st)
     = [onHighlightFace (Some (Face.id upFace))]
  /\ ((List.length (Props.faces props) <= 100)%nat ->
      Props.faces props = [] ++ upFace :: []).
Proof.
  apply (legacy_first_triggering_face_bounces (legacyProps [upFace]) Keys.none
           (1 / 60) 0 (ballAt (Vector3.mk 0 0.2 0) (Vector3.mk 0 (-1) 0))
           [] [] upFace).
  - reflexivity.
  - reflexivity.
  - unfold_step. rsolve.
  - reflexivity.
  - intros f' [].
  - unfold_step. num_eval. reflexivity.
Defined.

(** C9, as stated, fails on a slow ball.  Launched upward at 0.1 from
    height 0.2 over [upFace], the ball has velocity [(0, 0.1 - 9.8/60, 0)]
    after gravity, of squared length below 0.01.  The face satisfies the
    three conditions, with a positive penetration, yet the step returns
    before the collision loop: the position is the integrated one, the
    velocity still points down and no face is highlighted. *)
Lemma legacy_slow_ball_does_not_bounce :
  let st := ballAt (Vector3.mk 0 0.2 0) (Vector3.mk 0 0.1 0) in
  let delta := Rmin (1 / 60) (1 / 60) in
  let v1 := Vector3.set_y (Ball.velocityRef st)
              (Vector3.y (Ball.velocityRef st) - 9.8 * delta) in
  let p1 := Vector3.addScaledVector (Ball.position st) v1 delta in
  triggers 0.25 p1 v1 upFace = true
  /\ 0 < 0.25 - Vector3.dot (Face.normal upFace) (Vector3.sub p1 (Face.a upFace))
  /\ useFrame (legacyProps [upFace]) Keys.none (1 / 60) 0 st
     = (Ball.with_position (Ball.with_velocity st v1) p1, [])
  /\ Vector3.y v1 < 0.
Proof.
  repeat split.
  - unfold_step. num_eval. reflexivity.
  - unfold_step. rsolve.
  - unfold_step. num_eval. reflexivity.
  - unfold_step. rsolve.
Qed.

(** ** Sanity checks of the embedding *)

(** A degenerate triangle contains no point. *)
Example pointInTriangle_degenerate p a :
  pointInTriangle p a a a = false.
Proof.
  unfold pointInTriangle.
  assert (E : Num.eqb
                (Vector3.dot (Vector3.sub a a) (Vector3.sub a a)
                 * Vector3.dot (Vector3.sub a a) (Vector3.sub a a)
                 - Vector3.dot (Vector3.sub a a) (Vector3.sub a a)
                   * Vector3.dot (Vector3.sub a a) (Vector3.sub a a)) 0
              = true) by (apply NumFacts.eqb_true; ring).
  rewrite E. reflexivity.
Qed.

(** The default terrain has 6 x 6 cells, hence 72 faces. *)
Example default_terrain_has_72_faces :
  exists faces,
    buildTerrainFaces TerrainParams.default = Ok faces
    /\ List.length faces = 72%nat.
Proof.
  exists (terrainFaces TerrainParams.default). split.
  - apply buildTerrainFaces_closed_form. right. exists 6%Z. reflexivity.
  - rewrite length_terrainFaces.
    change (TerrainParams.divisions TerrainParams.default) with (IZR 6).
    rewrite countBelow_IZR. reflexivity.
Qed.

(** The query over [upFace] at the origin finds it at height 0. *)
Example getGroundInfo_upFace_origin :
  getGroundInfo 0 0 [upFace] = Some (GroundInfo.mk 0 (Vector3.mk 0 1 0) 0%Z).
Proof. unfold_step. num_eval. do 2 f_equal. lra. Qed.

(** Reflection of a falling velocity about the vertical unit normal. *)
Example reflect_vertical :
  reflect (Vector3.mk 3 (-2) 1) (Vector3.mk 0 1 0) = Vector3.mk 3 2 1.
Proof.
  unfold reflect, normalize.
  rewrite normalize_unit_axis
    by (cbv [Vector3.lengthSq Vector3.x Vector3.y Vector3.z]; lra).
  apply Vector3_eq;
    cbv [Vector3.sub Vector3.multiplyScalar Vector3.dot
         Vector3.x Vector3.y Vector3.z]; lra.
Qed.

(** * Further properties of the core *)

(** ** physics/math.ts *)

Ltac vec_components :=
  cbv [Vector3.add Vector3.sub Vector3.multiplyScalar Vector3.divideScalar
       Vector3.dot Vector3.cross Vector3.lengthSq Vector3.zero];
  cbn [Vector3.x Vector3.y Vector3.z].

Lemma lengthSq_zero_components u :
  Vector3.lengthSq u = 0 ->
  Vector3.x u = 0 /\ Vector3.y u = 0 /\ Vector3.z u = 0.
Proof. unfold Vector3.lengthSq. intros H. repeat split; nra. Qed.

Lemma lengthSq_pos_or_zero u :
  Vector3.lengthSq u = 0 \/ 0 < Vector3.lengthSq u.
Proof. unfold Vector3.lengthSq. nra. Qed.

Lemma normalize_of_zero_length u :
  Vector3.lengthSq u = 0 -> Vector3.normalize u = Vector3.mk 0 0 0.
Proof.
  intros H. destruct (lengthSq_zero_components u H) as (Hx & Hy & Hz).
  unfold Vector3.normalize, Vector3.length, Num.or_else.
  rewrite H, sqrt_0.
  assert (E : Num.eqb 0 0 = true) by (apply NumFacts.eqb_true; reflexivity).
  rewrite E. apply Vector3_eq; vec_components; rewrite ?Hx, ?Hy, ?Hz; lra.
Qed.

Lemma length_lengthSq u :
  Vector3.length u * Vector3.length u = Vector3.lengthSq u.
Proof.
  unfold Vector3.length. apply sqrt_sqrt.
  unfold Vector3.lengthSq. nra.
Qed.

Lemma normalize_lengthSq u :
  0 < Vector3.lengthSq u -> Vector3.lengthSq (Vector3.normalize u) = 1.
Proof.
  intros H. rewrite <- length_lengthSq, (normalize_unit u H). lra.
Qed.

(** The unit vector [normalize n] has squared length 1, or every component
    0 when [n] is the zero vector. *)
Lemma normalize_unit_or_zero n :
  Vector3.lengthSq (Vector3.normalize n) = 1
  \/ Vector3.normalize n = Vector3.mk 0 0 0.
Proof.
  destruct (lengthSq_pos_or_zero n) as [H|H].
  - right. apply normalize_of_zero_length, H.
  - left. apply normalize_lengthSq, H.
Qed.

Lemma length_multiplyScalar u s :
  Vector3.length (Vector3.multiplyScalar u s) = Rabs s * Vector3.length u.
Proof.
  unfold Vector3.length.
  replace (Vector3.lengthSq (Vector3.multiplyScalar u s))
    with (Rsqr s * Vector3.lengthSq u)
    by (unfold Rsqr; vec_components; ring).
  rewrite sqrt_mult_alt by apply Rle_0_sqr.
  rewrite sqrt_Rsqr_abs. reflexivity.
Qed.

(** Reflecting twice about the same normal gives the vector back, whatever
    the normal, the zero vector included. *)
Theorem reflect_involution (v n : Vector3.t) :
  reflect (reflect v n) n = v.
Proof.
  unfold reflect, normalize.
  destruct (normalize_unit_or_zero n) as [H|H].
  - set (u := Vector3.normalize n) in *.
    unfold Vector3.lengthSq in H.
    apply Vector3_eq; vec_components.
    + transitivity
        (Vector3.x v
         - Vector3.x u * (2 * (Vector3.x v * Vector3.x u + Vector3.y v * Vector3.y u
                               + Vector3.z v * Vector3.z u))
           * (2 - 2 * (Vector3.x u * Vector3.x u + Vector3.y u * Vector3.y u
                       + Vector3.z u * Vector3.z u))); [ring|].
      rewrite H. ring.
    + transitivity
        (Vector3.y v
         - Vector3.y u * (2 * (Vector3.x v * Vector3.x u + Vector3.y v * Vector3.y u
                               + Vector3.z v * Vector3.z u))
           * (2 - 2 * (Vector3.x u * Vector3.x u + Vector3.y u * Vector3.y u
                       + Vector3.z u * Vector3.z u))); [ring|].
      rewrite H. ring.
    + transitivity
        (Vector3.z v
         - Vector3.z u * (2 * (Vector3.x v * Vector3.x u + Vector3.y v * Vector3.y u
                               + Vector3.z v * Vector3.z u))
           * (2 - 2 * (Vector3.x u * Vector3.x u + Vector3.y u * Vector3.y u
                       + Vector3.z u * Vector3.z u))); [ring|].
      rewrite H. ring.
  - rewrite H. apply Vector3_eq; vec_components; ring.
Qed.

Lemma reflect_length (v n : Vector3.t) :
  Vector3.length (reflect v n) = Vector3.length v.
Proof.
  unfold Vector3.length. f_equal.
  unfold reflect, normalize.
  destruct (normalize_unit_or_zero n) as [H|H].
  - set (u := Vector3.normalize n) in *.
    unfold Vector3.lengthSq in H. vec_components.
    set (d := Vector3.x v * Vector3.x u + Vector3.y v * Vector3.y u
              + Vector3.z v * Vector3.z u).
    transitivity
      (Vector3.x v * Vector3.x v + Vector3.y v * Vector3.y v
       + Vector3.z v * Vector3.z v
       + 4 * d * d * (Vector3.x u * Vector3.x u + Vector3.y u * Vector3.y u
                      + Vector3.z u * Vector3.z u - 1)); [unfold d; ring|].
    rewrite H. ring.
  - rewrite H. vec_components. ring.
Qed.

(** Reflection keeps the length of the vector: the bounce is elastic. *)
Theorem reflect_preserves_length (v n : Vector3.t) :
  Vector3.length (reflect v n) = Vector3.length v.
Proof. exact (reflect_length v n). Qed.

(** The reflection is the vector minus twice its projection on the normal;
    the normal need not be a unit vector, and may be zero. *)
Theorem reflect_is_minus_twice_projection (v n : Vector3.t) :
  reflect v n = Vector3.sub v (Vector3.multiplyScalar (projectOnto v n) 2).
Proof.
  unfold reflect, normalize, projectOnto.
  destruct (lengthSq_pos_or_zero n) as [H|H].
  - rewrite (normalize_of_zero_length n H).
    assert (E : Num.eqb (Vector3.lengthSq n) 0 = true)
      by (apply NumFacts.eqb_true, H).
    rewrite E. apply Vector3_eq; vec_components; ring.
  - assert (E : Num.eqb (Vector3.lengthSq n) 0 = false)
      by (apply NumFacts.eqb_false; lra).
    rewrite E, (normalize_scale n H).
    pose proof (length_pos n H) as Hl.
    pose proof (length_lengthSq n) as Hsq.
    set (l := Vector3.length n) in *.
    rewrite <- Hsq.
    apply Vector3_eq; vec_components; field; lra.
Qed.

(** Projection is idempotent, and what it removes from the vector is
    perpendicular to the target; a zero target gives the zero vector and
    removes nothing. *)
Theorem projectOnto_idempotent_and_orthogonal (v n : Vector3.t) :
  projectOnto (projectOnto v n) n = projectOnto v n
  /\ Vector3.dot (Vector3.sub v (projectOnto v n)) n = 0.
Proof.
  unfold projectOnto.
  destruct (Num.eqb (Vector3.lengthSq n) 0) eqn:E.
  - apply NumFacts.eqb_true in E.
    destruct (lengthSq_zero_components n E) as (Hx & Hy & Hz).
    split; [reflexivity|].
    vec_components. rewrite Hx, Hy, Hz. ring.
  - apply NumFacts.eqb_false in E. split.
    + apply Vector3_eq; vec_components;
        unfold Vector3.lengthSq in E; field; exact E.
    + vec_components. unfold Vector3.lengthSq in E. field. exact E.
Qed.

Lemma normalize_length v :
  Vector3.length (Vector3.normalize v)
  = (if Num.eqb (Vector3.lengthSq v) 0 then 0 else 1).
Proof.
  destruct (Num.eqb (Vector3.lengthSq v) 0) eqn:E.
  - apply NumFacts.eqb_true in E.
    rewrite (normalize_of_zero_length v E). unfold Vector3.length.
    replace (Vector3.lengthSq (Vector3.mk 0 0 0)) with 0
      by (vec_components; ring).
    apply sqrt_0.
  - apply NumFacts.eqb_false in E. apply normalize_unit.
    destruct (lengthSq_pos_or_zero v); [contradiction|assumption].
Qed.

(** Normalising is idempotent, and its result has length 1, or 0 when the
    argument is the zero vector: no division by zero occurs. *)
Theorem normalize_idempotent (v : Vector3.t) :
  normalize (normalize v) = normalize v
  /\ Vector3.length (normalize v)
     = (if Num.eqb (Vector3.lengthSq v) 0 then 0 else 1).
Proof.
  unfold normalize.
  destruct (Num.eqb (Vector3.lengthSq v) 0) eqn:E.
  - apply NumFacts.eqb_true in E.
    rewrite (normalize_of_zero_length v E). split.
    + apply normalize_of_zero_length. vec_components. ring.
    + unfold Vector3.length.
      replace (Vector3.lengthSq (Vector3.mk 0 0 0)) with 0
        by (vec_components; ring).
      apply sqrt_0.
  - apply NumFacts.eqb_false in E.
    assert (H : 0 < Vector3.lengthSq v)
      by (destruct (lengthSq_pos_or_zero v); [contradiction|assumption]).
    split.
    + apply normalize_unit_axis, normalize_lengthSq, H.
    + apply normalize_unit, H.
Qed.

(** For a non-negative bound, the clamped vector has the smaller of the two
    lengths: a vector within the bound is returned as it is, a longer one is
    rescaled to exactly the bound. *)
Theorem clampMagnitude_length (v : Vector3.t) (max : R) :
  0 <= max ->
  Vector3.length (clampMagnitude v max) = Rmin (Vector3.length v) max
  /\ (Vector3.length v <= max -> clampMagnitude v max = v).
Proof.
  intros Hmax. unfold clampMagnitude.
  destruct (Num.leb (Vector3.length v) max) eqn:E.
  - apply NumFacts.leb_true in E. split; [|reflexivity].
    rewrite Rmin_left by exact E. reflexivity.
  - apply NumFacts.leb_false in E. split; [|lra].
    rewrite Rmin_right by lra.
    unfold setLength. rewrite length_multiplyScalar.
    assert (H : 0 < Vector3.lengthSq v).
    { destruct (lengthSq_pos_or_zero v) as [H|H]; [|exact H].
      unfold Vector3.length in E. rewrite H, sqrt_0 in E. lra. }
    rewrite (normalize_unit v H), Rabs_right by lra. lra.
Qed.

Lemma clampMagnitude_length_example :
  Vector3.length (clampMagnitude (Vector3.mk 3 0 4) 2)
    = Rmin (Vector3.length (Vector3.mk 3 0 4)) 2
  /\ (Vector3.length (Vector3.mk 3 0 4) <= 2 ->
      clampMagnitude (Vector3.mk 3 0 4) 2 = Vector3.mk 3 0 4).
Proof.
  apply (clampMagnitude_length (Vector3.mk 3 0 4) 2). lra.
Defined.

(** The signed distance to a plane is 0 at the point that defines the
    plane, grows by [t] when the point moves by [t] along the unit normal,
    and for a normal of unit length is the plain dot product that the
    collision loop of legacy mode computes inline. *)
Theorem planeSignedDistance_along_normal (p p0 n : Vector3.t) (t : R) :
  0 < Vector3.lengthSq n ->
  planeSignedDistance p0 p0 n = 0
  /\ planeSignedDistance
       (Vector3.add p (Vector3.multiplyScalar (Vector3.normalize n) t)) p0 n
     = planeSignedDistance p p0 n + t
  /\ (Vector3.lengthSq n = 1 ->
      planeSignedDistance p p0 n = Vector3.dot n (Vector3.sub p p0)).
Proof.
  intros H. unfold planeSignedDistance.
  pose proof (normalize_lengthSq n H) as Hu.
  repeat split.
  - vec_components. ring.
  - set (u := Vector3.normalize n) in *.
    unfold Vector3.lengthSq in Hu. vec_components.
    transitivity
      (Vector3.x u * (Vector3.x p - Vector3.x p0)
       + Vector3.y u * (Vector3.y p - Vector3.y p0)
       + Vector3.z u * (Vector3.z p - Vector3.z p0)
       + t * (Vector3.x u * Vector3.x u + Vector3.y u * Vector3.y u
              + Vector3.z u * Vector3.z u)); [ring|].
    rewrite Hu. ring.
  - intros H1. rewrite (normalize_unit_axis n H1). reflexivity.
Qed.

Lemma planeSignedDistance_along_normal_example :
  planeSignedDistance (Vector3.mk 0 0 0) (Vector3.mk 0 0 0) (Vector3.mk 0 2 0) = 0
  /\ planeSignedDistance
       (Vector3.add (Vector3.mk 1 1 1)
          (Vector3.multiplyScalar (Vector3.normalize (Vector3.mk 0 2 0)) 3))
       (Vector3.mk 0 0 0) (Vector3.mk 0 2 0)
     = planeSignedDistance (Vector3.mk 1 1 1) (Vector3.mk 0 0 0)
         (Vector3.mk 0 2 0) + 3
  /\ (Vector3.lengthSq (Vector3.mk 0 2 0) = 1 ->
      planeSignedDistance (Vector3.mk 1 1 1) (Vector3.mk 0 0 0) (Vector3.mk 0 2 0)
      = Vector3.dot (Vector3.mk 0 2 0)
          (Vector3.sub (Vector3.mk 1 1 1) (Vector3.mk 0 0 0))).
Proof.
  apply (planeSignedDistance_along_normal (Vector3.mk 1 1 1) (Vector3.mk 0 0 0)
           (Vector3.mk 0 2 0) 3).
  vec_components. lra.
Defined.

(** *** The inside test *)

(** The denominator of the barycentric coordinates is the squared length
    of the cross product of the two edges. *)
Lemma barycentric_denominator v0 v1 :
  Vector3.dot v0 v0 * Vector3.dot v1 v1 - Vector3.dot v0 v1 * Vector3.dot v0 v1
  = Vector3.lengthSq (Vector3.cross v0 v1).
Proof. vec_components. ring. Qed.

Lemma nonDegenerate_denominator a b c :
  nonDegenerate a b c ->
  Vector3.dot (Vector3.sub c a) (Vector3.sub c a)
  * Vector3.dot (Vector3.sub b a) (Vector3.sub b a)
  - Vector3.dot (Vector3.sub c a) (Vector3.sub b a)
    * Vector3.dot (Vector3.sub c a) (Vector3.sub b a) <> 0.
Proof.
  intros Hnd E. apply Hnd. rewrite barycentric_denominator in E.
  destruct (lengthSq_zero_components _ E) as (Hx & Hy & Hz).
  apply Vector3_eq; cbn [Vector3.zero Vector3.x Vector3.y Vector3.z]; assumption.
Qed.

Lemma pointInTriangle_baryPoint (a b c : Vector3.t) (u v : R) :
  nonDegenerate a b c ->
  pointInTriangle (baryPoint a b c u v) a b c = baryInside u v.
Proof.
  intros Hnd. pose proof (nonDegenerate_denominator a b c Hnd) as Hd.
  unfold pointInTriangle, baryInside.
  apply NumFacts.eqb_false in Hd. rewrite Hd. apply NumFacts.eqb_false in Hd.
  destruct a as [ax ay az], b as [bx by' bz], c as [cx cy cz].
  unfold baryPoint in *. revert Hd. vec_components. intros Hd.
  match goal with
  | |- Num.geb ?u' _ && Num.geb ?v' _ && Num.leb (?u' + ?v') _ = _ =>
      replace u' with u by (field; exact Hd);
      replace v' with v by (field; exact Hd)
  end.
  reflexivity.
Qed.

(** On a triangle whose vertices are not collinear, the test applied to the
    point of barycentric coordinates [(u, v)] recovers the coordinates and
    answers whether [u >= -1e-6], [v >= -1e-6] and [u + v <= 1 + 1e-6]. *)
Theorem pointInTriangle_barycentric (a b c : Vector3.t) (u v : R) :
  nonDegenerate a b c ->
  pointInTriangle (baryPoint a b c u v) a b c = baryInside u v.
Proof. exact (pointInTriangle_baryPoint a b c u v). Qed.

Lemma pointInTriangle_barycentric_example :
  pointInTriangle
    (baryPoint (Vector3.mk 0 0 0) (Vector3.mk 1 0 0) (Vector3.mk 0 0 1) 2 0.5)
    (Vector3.mk 0 0 0) (Vector3.mk 1 0 0) (Vector3.mk 0 0 1)
  = baryInside 2 0.5.
Proof.
  apply (pointInTriangle_barycentric (Vector3.mk 0 0 0) (Vector3.mk 1 0 0)
           (Vector3.mk 0 0 1) 2 0.5).
  unfold nonDegenerate. vec_components. intros H.
  apply (f_equal Vector3.y) in H. cbn in H. lra.
Defined.

(** A triangle with collinear vertices contains no point. *)
Theorem collinear_triangle_contains_nothing (p a b c : Vector3.t) :
  Vector3.cross (Vector3.sub c a) (Vector3.sub b a) = Vector3.zero ->
  pointInTriangle p a b c = false.
Proof.
  intros H. unfold pointInTriangle.
  rewrite barycentric_denominator, H.
  assert (E : Num.eqb (Vector3.lengthSq Vector3.zero) 0 = true)
    by (apply NumFacts.eqb_true; vec_components; ring).
  rewrite E. reflexivity.
Qed.

Lemma collinear_triangle_contains_nothing_example :
  pointInTriangle (Vector3.mk 1 0 0) (Vector3.mk 0 0 0) (Vector3.mk 1 0 0)
    (Vector3.mk 2 0 0) = false.
Proof.
  apply (collinear_triangle_contains_nothing (Vector3.mk 1 0 0)
           (Vector3.mk 0 0 0) (Vector3.mk 1 0 0) (Vector3.mk 2 0 0)).
  apply Vector3_eq; vec_components; lra.
Defined.

(** The three vertices and the centroid of a triangle whose vertices are
    not collinear pass the inside test. *)
Theorem pointInTriangle_vertices_and_centroid (a b c : Vector3.t) :
  nonDegenerate a b c ->
  pointInTriangle a a b c = true
  /\ pointInTriangle b a b c = true
  /\ pointInTriangle c a b c = true
  /\ pointInTriangle (triangleCentroid a b c) a b c = true.
Proof.
  intros Hnd.
  assert (In_ : forall p u v,
             p = baryPoint a b c u v -> baryInside u v = true ->
             pointInTriangle p a b c = true).
  { intros p u v -> Hin. rewrite pointInTriangle_baryPoint; assumption. }
  repeat split.
  - apply (In_ a 0 0).
    + apply Vector3_eq; unfold baryPoint; vec_components; ring.
    + unfold baryInside. num_eval. reflexivity.
  - apply (In_ b 0 1).
    + apply Vector3_eq; unfold baryPoint; vec_components; ring.
    + unfold baryInside. num_eval. reflexivity.
  - apply (In_ c 1 0).
    + apply Vector3_eq; unfold baryPoint; vec_components; ring.
    + unfold baryInside. num_eval. reflexivity.
  - apply (In_ _ (1 / 3) (1 / 3)).
    + apply Vector3_eq; unfold baryPoint, triangleCentroid; vec_components; field.
    + unfold baryInside. num_eval. reflexivity.
Qed.

Lemma pointInTriangle_vertices_and_centroid_example :
  pointInTriangle (Vector3.mk 0 0 0) (Vector3.mk 0 0 0) (Vector3.mk 1 0 0)
    (Vector3.mk 0 0 1) = true
  /\ pointInTriangle (Vector3.mk 1 0 0) (Vector3.mk 0 0 0) (Vector3.mk 1 0 0)
       (Vector3.mk 0 0 1) = true
  /\ pointInTriangle (Vector3.mk 0 0 1) (Vector3.mk 0 0 0) (Vector3.mk 1 0 0)
       (Vector3.mk 0 0 1) = true
  /\ pointInTriangle
       (triangleCentroid (Vector3.mk 0 0 0) (Vector3.mk 1 0 0) (Vector3.mk 0 0 1))
       (Vector3.mk 0 0 0) (Vector3.mk 1 0 0) (Vector3.mk 0 0 1) = true.
Proof.
  apply (pointInTriangle_vertices_and_centroid (Vector3.mk 0 0 0)
           (Vector3.mk 1 0 0) (Vector3.mk 0 0 1)).
  unfold nonDegenerate. vec_components. intros H.
  apply (f_equal Vector3.y) in H. cbn in H. lra.
Defined.

(** *** Face normals *)

Lemma normalize_multiple u :
  exists k, 0 < k /\ Vector3.normalize u = Vector3.multiplyScalar u k.
Proof.
  destruct (lengthSq_pos_or_zero u) as [H|H].
  - exists 1. split; [lra|].
    rewrite (normalize_of_zero_length u H).
    destruct (lengthSq_zero_components u H) as (Hx & Hy & Hz).
    apply Vector3_eq; vec_components; rewrite ?Hx, ?Hy, ?Hz; ring.
  - exists (1 / Vector3.length u). split.
    + apply Rdiv_lt_0_compat; [lra | apply length_pos, H].
    + apply normalize_scale, H.
Qed.

Lemma triangleNormal_perpendicular a b c :
  Vector3.dot (triangleNormal a b c) (Vector3.sub b a) = 0
  /\ Vector3.dot (triangleNormal a b c) (Vector3.sub c a) = 0.
Proof.
  unfold triangleNormal.
  destruct (normalize_multiple
              (Vector3.cross (Vector3.sub b a) (Vector3.sub c a)))
    as (k & _ & ->).
  split; vec_components; ring.
Qed.

(** The normal of a triangle is perpendicular to its two edges at [a]; it
    has length 1 unless the vertices are collinear, in which case it is the
    zero vector; and exchanging [b] and [c] turns it into its opposite. *)
Theorem triangleNormal_perpendicular_unit_winding (a b c : Vector3.t) :
  Vector3.dot (triangleNormal a b c) (Vector3.sub b a) = 0
  /\ Vector3.dot (triangleNormal a b c) (Vector3.sub c a) = 0
  /\ Vector3.length (triangleNormal a b c)
     = (if Num.eqb (Vector3.lengthSq
                      (Vector3.cross (Vector3.sub b a) (Vector3.sub c a))) 0
        then 0 else 1)
  /\ triangleNormal a c b = Vector3.multiplyScalar (triangleNormal a b c) (-1).
Proof.
  unfold triangleNormal.
  set (ab := Vector3.sub b a). set (ac := Vector3.sub c a).
  destruct (normalize_multiple (Vector3.cross ab ac)) as (k & Hk & Ek).
  repeat split.
  - rewrite Ek. vec_components. ring.
  - rewrite Ek. vec_components. ring.
  - apply normalize_length.
  - assert (Hl : Vector3.lengthSq (Vector3.cross ac ab)
                 = Vector3.lengthSq (Vector3.cross ab ac))
      by (vec_components; ring).
    unfold Vector3.normalize, Vector3.length. rewrite Hl.
    apply Vector3_eq; vec_components; ring.
Qed.

(** ** The ground query, continued *)

Lemma getGroundInfo_single x z f :
  supports x z f = true -> getGroundInfo x z [f] = Some (groundOf x z f).
Proof.
  intros H. unfold getGroundInfo. cbn [fold_left].
  rewrite (getGroundInfo_body_supports x z None f H). reflexivity.
Qed.

Lemma planeHeight_on_plane f p :
  Vector3.y (Face.normal f) <> 0 ->
  Vector3.dot (Face.normal f) (Vector3.sub p (Face.a f)) = 0 ->
  planeHeight (Vector3.x p) (Vector3.z p) f = Vector3.y p.
Proof.
  intros Hy Hdot. unfold planeHeight. revert Hdot. vec_components.
  intros Hdot. cbv zeta.
  replace (Vector3.x (Face.normal f) * (Vector3.x p - Vector3.x (Face.a f))
           + Vector3.z (Face.normal f) * (Vector3.z p - Vector3.z (Face.a f)))
    with (- (Vector3.y (Face.normal f) * (Vector3.y p - Vector3.y (Face.a f))))
    by lra.
  field. exact Hy.
Qed.

Lemma groundResult_attained x z faces g :
  groundResult x z faces (Some g) ->
  exists f, In f faces /\ supports x z f = true /\ g = groundOf x z f.
Proof.
  intros (pre & f & post & -> & Hf & -> & _ & _).
  exists f. repeat split; auto. apply in_or_app. right; left; reflexivity.
Qed.

Lemma groundResult_upper_bound x z faces g :
  groundResult x z faces (Some g) ->
  forall f', In f' faces -> supports x z f' = true ->
             planeHeight x z f' <= GroundInfo.y g.
Proof.
  intros (pre & f & post & -> & Hf & -> & Hpre & Hpost) f' Hin Hs.
  cbn [groundOf GroundInfo.y].
  apply in_app_or in Hin as [Hin|[<-|Hin]].
  - specialize (Hpre _ Hin Hs). lra.
  - lra.
  - apply Hpost; assumption.
Qed.

Lemma getGroundInfo_some_of_support x z faces f :
  In f faces -> supports x z f = true ->
  exists g, getGroundInfo x z faces = Some g
            /\ planeHeight x z f <= GroundInfo.y g.
Proof.
  intros Hin Hs. pose proof (getGroundInfo_result x z faces) as H.
  destruct (getGroundInfo x z faces) as [g|].
  - exists g. split; [reflexivity|].
    apply (groundResult_upper_bound x z faces g H f Hin Hs).
  - cbn in H. rewrite (H f Hin) in Hs. discriminate.
Qed.

Lemma baryPoint_on_plane f u v :
  normalPerpendicular f ->
  Vector3.dot (Face.normal f)
    (Vector3.sub (baryPoint (Face.a f) (Face.b f) (Face.c f) u v) (Face.a f)) = 0.
Proof.
  intros [Hb Hc]. revert Hb Hc. unfold baryPoint. vec_components.
  intros Hb Hc.
  transitivity
    (u * (Vector3.x (Face.normal f) * (Vector3.x (Face.c f) - Vector3.x (Face.a f))
          + Vector3.y (Face.normal f) * (Vector3.y (Face.c f) - Vector3.y (Face.a f))
          + Vector3.z (Face.normal f) * (Vector3.z (Face.c f) - Vector3.z (Face.a f)))
     + v * (Vector3.x (Face.normal f) * (Vector3.x (Face.b f) - Vector3.x (Face.a f))
            + Vector3.y (Face.normal f) * (Vector3.y (Face.b f) - Vector3.y (Face.a f))
            + Vector3.z (Face.normal f) * (Vector3.z (Face.b f) - Vector3.z (Face.a f))));
    [ring|].
  rewrite Hb, Hc. ring.
Qed.

Lemma supports_point_of_face f u v :
  normalPerpendicular f ->
  nonDegenerate (Face.a f) (Face.b f) (Face.c f) ->
  1e-4 <= Rabs (Vector3.y (Face.normal f)) ->
  baryInside u v = true ->
  let p := baryPoint (Face.a f) (Face.b f) (Face.c f) u v in
  supports (Vector3.x p) (Vector3.z p) f = true
  /\ planeHeight (Vector3.x p) (Vector3.z p) f = Vector3.y p.
Proof.
  intros Hperp Hnd Hn Hin p.
  assert (Hy : Vector3.y (Face.normal f) <> 0).
  { intros E. rewrite E, Rabs_R0 in Hn. lra. }
  assert (Hh : planeHeight (Vector3.x p) (Vector3.z p) f = Vector3.y p)
    by (apply planeHeight_on_plane; [exact Hy | apply baryPoint_on_plane, Hperp]).
  split; [|exact Hh].
  unfold supports, footprintContains. rewrite Hh.
  replace (Vector3.mk (Vector3.x p) (Vector3.y p) (Vector3.z p)) with p
    by (destruct p; reflexivity).
  unfold p. rewrite (pointInTriangle_baryPoint _ _ _ u v Hnd), Hin.
  rewrite andb_true_r. apply NumFacts.geb_true. lra.
Qed.

(** A point of a face, given by barycentric coordinates that pass the
    inside test, is supported by that face when the stored normal is
    perpendicular to the face and its vertical component is at least 1e-4
    in absolute value: the query over the face alone returns the face with
    the height of the point, and the query over any list that contains the
    face returns a ground at least that high. *)
Theorem getGroundInfo_point_of_face
    (faces : list Face.t) (f : Face.t) (u v : R) :
  In f faces ->
  normalPerpendicular f ->
  nonDegenerate (Face.a f) (Face.b f) (Face.c f) ->
  1e-4 <= Rabs (Vector3.y (Face.normal f)) ->
  baryInside u v = true ->
  let p := baryPoint (Face.a f) (Face.b f) (Face.c f) u v in
  (exists g, getGroundInfo (Vector3.x p) (Vector3.z p) [f] = Some g
             /\ GroundInfo.y g = Vector3.y p
             /\ GroundInfo.normal g = Face.normal f
             /\ GroundInfo.id g = Face.id f)
  /\ (exists g, getGroundInfo (Vector3.x p) (Vector3.z p) faces = Some g
                /\ Vector3.y p <= GroundInfo.y g).
Proof.
  intros Hin Hperp Hnd Hn Hu p.
  destruct (supports_point_of_face f u v Hperp Hnd Hn Hu) as [Hs Hh].
  fold p in Hs, Hh. split.
  - exists (groundOf (Vector3.x p) (Vector3.z p) f). split; [|split; [|split]].
    + apply getGroundInfo_single, Hs.
    + exact Hh.
    + reflexivity.
    + reflexivity.
  - destruct (getGroundInfo_some_of_support _ _ faces f Hin Hs) as (g & Hg & Hle).
    exists g. split; [exact Hg | lra].
Qed.

Lemma upFace_well_formed :
  normalPerpendicular upFace
  /\ nonDegenerate (Face.a upFace) (Face.b upFace) (Face.c upFace)
  /\ 1e-4 <= Rabs (Vector3.y (Face.normal upFace)).
Proof.
  repeat split.
  - cbn [upFace Face.normal Face.a Face.b]. vec_components. lra.
  - cbn [upFace Face.normal Face.a Face.c]. vec_components. lra.
  - unfold nonDegenerate. cbn [upFace Face.a Face.b Face.c]. vec_components.
    intros H. apply (f_equal Vector3.y) in H. cbn in H. lra.
  - cbn [upFace Face.normal Vector3.y]. rsolve.
Qed.

Lemma getGroundInfo_point_of_face_upFace :
  let p := baryPoint (Face.a upFace) (Face.b upFace) (Face.c upFace)
             (1 / 3) (1 / 3) in
  (exists g, getGroundInfo (Vector3.x p) (Vector3.z p) [upFace] = Some g
             /\ GroundInfo.y g = Vector3.y p
             /\ GroundInfo.normal g = Face.normal upFace
             /\ GroundInfo.id g = Face.id upFace)
  /\ (exists g, getGroundInfo (Vector3.x p) (Vector3.z p) [downFace; upFace]
                = Some g
                /\ Vector3.y p <= GroundInfo.y g).
Proof.
  apply (getGroundInfo_point_of_face [downFace; upFace] upFace (1 / 3) (1 / 3)).
  - right; left; reflexivity.
  - apply upFace_well_formed.
  - apply upFace_well_formed.
  - apply upFace_well_formed.
  - unfold baryInside. num_eval. reflexivity.
Defined.

Lemma getGroundInfo_subset (x z : R) (faces faces' : list Face.t)
    (g : GroundInfo.t) :
  (forall f, In f faces -> In f faces') ->
  getGroundInfo x z faces = Some g ->
  exists g', getGroundInfo x z faces' = Some g'
             /\ GroundInfo.y g <= GroundInfo.y g'.
Proof.
  intros Hsub Hg.
  pose proof (getGroundInfo_result x z faces) as H. rewrite Hg in H.
  destruct (groundResult_attained x z faces g H) as (f & Hin & Hs & ->).
  destruct (getGroundInfo_some_of_support x z faces' f (Hsub f Hin) Hs)
    as (g' & Hg' & Hle).
  exists g'. split; [exact Hg' | exact Hle].
Qed.

(** Adding faces never lowers the ground: when every face of one list
    occurs in another and the query finds a ground over the first, it finds
    one over the second, at least as high. *)
Theorem getGroundInfo_monotone (x z : R) (faces faces' : list Face.t)
    (g : GroundInfo.t) :
  (forall f, In f faces -> In f faces') ->
  getGroundInfo x z faces = Some g ->
  exists g', getGroundInfo x z faces' = Some g'
             /\ GroundInfo.y g <= GroundInfo.y g'.
Proof. exact (getGroundInfo_subset x z faces faces' g). Qed.

Lemma getGroundInfo_monotone_upFace :
  exists g', getGroundInfo 0 0 [downFace; upFace] = Some g'
             /\ GroundInfo.y (GroundInfo.mk 0 (Vector3.mk 0 1 0) 0%Z)
                <= GroundInfo.y g'.
Proof.
  apply (getGroundInfo_monotone 0 0 [upFace] [downFace; upFace]
           (GroundInfo.mk 0 (Vector3.mk 0 1 0) 0%Z)).
  - intros f [<-|[]]. right; left; reflexivity.
  - exact getGroundInfo_upFace_origin.
Defined.

(** The height the query returns does not depend on the order of the
    faces, nor on repetitions: two lists with the same faces give the same
    height, or both give none.  (The id may differ between two faces of
    equal height.) *)
Theorem getGroundInfo_height_order_independent (x z : R)
    (faces faces' : list Face.t) :
  (forall f, In f faces <-> In f faces') ->
  option_map GroundInfo.y (getGroundInfo x z faces)
  = option_map GroundInfo.y (getGroundInfo x z faces').
Proof.
  intros Hsame.
  destruct (getGroundInfo x z faces) as [g|] eqn:E;
    destruct (getGroundInfo x z faces') as [g'|] eqn:E'; cbn.
  - destruct (getGroundInfo_subset x z faces faces' g
                (fun f => proj1 (Hsame f)) E) as (g1 & Hg1 & Hle1).
    destruct (getGroundInfo_subset x z faces' faces g'
                (fun f => proj2 (Hsame f)) E') as (g2 & Hg2 & Hle2).
    rewrite E' in Hg1. rewrite E in Hg2.
    injection Hg1 as <-. injection Hg2 as <-.
    f_equal. lra.
  - destruct (getGroundInfo_subset x z faces faces' g
                (fun f => proj1 (Hsame f)) E) as (g1 & Hg1 & _).
    rewrite E' in Hg1. discriminate.
  - destruct (getGroundInfo_subset x z faces' faces g'
                (fun f => proj2 (Hsame f)) E') as (g2 & Hg2 & _).
    rewrite E in Hg2. discriminate.
  - reflexivity.
Qed.

Lemma getGroundInfo_height_order_independent_two_faces :
  option_map GroundInfo.y (getGroundInfo 0 0 [upFace; downFace])
  = option_map GroundInfo.y (getGroundInfo 0 0 [downFace; upFace; upFace]).
Proof.
  apply (getGroundInfo_height_order_independent 0 0 [upFace; downFace]
           [downFace; upFace; upFace]).
  intros f. cbn. tauto.
Defined.

Lemma getGroundInfo_fold_filter x z faces best :
  fold_left (getGroundInfo_body x z) faces best
  = fold_left (getGroundInfo_body x z) (filter (supports x z) faces) best.
Proof.
  revert best. induction faces as [|f faces IH]; intros best; cbn [filter fold_left].
  - reflexivity.
  - destruct (supports x z f) eqn:Hs; cbn [fold_left].
    + apply IH.
    + rewrite (getGroundInfo_body_skips x z best f Hs). apply IH.
Qed.

(** The faces the query skips have no influence at all: the result over a
    list, id included, is the result over its supporting faces. *)
Theorem getGroundInfo_ignores_unsupporting_faces (x z : R)
    (faces : list Face.t) :
  getGroundInfo x z faces = getGroundInfo x z (filter (supports x z) faces).
Proof. apply getGroundInfo_fold_filter. Qed.

(** ** The terrain generator, continued *)

Section GeneratedFaces.

Variable p : TerrainParams.t.

Local Abbreviation d := (TerrainParams.divisions p).
Local Abbreviation n := (countBelow (TerrainParams.divisions p)).

Lemma ids_of_cells i j0 k :
  map Face.id (flat_map (fun j => cellFaces p i j) (seq j0 k))
  = map Z.of_nat (seq (2 * (i * n + j0)) (2 * k)).
Proof.
  revert j0. induction k as [|k IH]; intros j0.
  - reflexivity.
  - replace (2 * S k)%nat with (S (S (2 * k))) by lia.
    cbn [seq flat_map]. rewrite map_app, IH.
    cbn [cellFaces cellFacesFrom map Face.id app].
    replace (S (S (2 * (i * n + j0)))) with (2 * (i * n + S j0))%nat by lia.
    f_equal. f_equal. lia.
Qed.

Lemma ids_of_rows i0 k :
  map Face.id
    (flat_map (fun i => flat_map (fun j => cellFaces p i j) (below d))
       (seq i0 k))
  = map Z.of_nat (seq (2 * (i0 * n)) (2 * n * k)).
Proof.
  revert i0. induction k as [|k IH]; intros i0.
  - rewrite Nat.mul_0_r. reflexivity.
  - cbn [seq flat_map]. rewrite map_app, IH. unfold below.
    rewrite ids_of_cells.
    replace (2 * n * S k)%nat with (2 * n + 2 * n * k)%nat by lia.
    rewrite seq_app, map_app.
    replace (2 * (i0 * n + 0))%nat with (2 * (i0 * n))%nat by lia.
    replace (2 * (S i0 * n))%nat with (2 * (i0 * n) + 2 * n)%nat by lia.
    reflexivity.
Qed.

Lemma ids_of_terrainFaces :
  map Face.id (terrainFaces p)
  = map Z.of_nat (seq 0 (List.length (terrainFaces p))).
Proof.
  rewrite length_terrainFaces. pose proof (ids_of_rows 0 n) as H.
  unfold terrainFaces. unfold below in H |- *. rewrite H.
  replace (2 * (0 * n))%nat with 0%nat by lia.
  replace (2 * n * n)%nat with (2 * (n * n))%nat by lia.
  reflexivity.
Qed.

Lemma in_terrainFaces f :
  In f (terrainFaces p) ->
  exists i j, (i < n)%nat /\ (j < n)%nat /\ In f (cellFaces p i j).
Proof.
  unfold terrainFaces. intros H.
  apply in_flat_map in H as (i & Hi & H).
  apply in_flat_map in H as (j & Hj & H).
  exists i, j.
  repeat split; [apply (in_below p), Hi | apply (in_below p), Hj | exact H].
Qed.

End GeneratedFaces.

(** The generator throws a [TypeError] exactly when the division count is
    positive and not an integer; whenever it returns, it has numbered the
    faces 0, 1, 2, ... in the order of the list, without gap or
    repetition. *)
Theorem buildTerrainFaces_dense_ids (p : TerrainParams.t) :
  (forall faces,
     buildTerrainFaces p = Ok faces ->
     map Face.id faces = map Z.of_nat (seq 0 (List.length faces)))
  /\ (buildTerrainFaces p = TypeError
      <-> 0 < TerrainParams.divisions p
          /\ ~ wholeNumber (TerrainParams.divisions p)).
Proof.
  split; [|split].
  - intros faces H. apply buildTerrainFaces_returns in H as [-> _].
    apply ids_of_terrainFaces.
  - intros H.
    assert (Hpos : 0 < TerrainParams.divisions p).
    { destruct (Rle_dec (TerrainParams.divisions p) 0) as [Hle|Hgt]; [|lra].
      rewrite (buildTerrainFaces_no_cells p Hle) in H. discriminate. }
    split; [exact Hpos|]. intros W.
    rewrite (buildTerrainFaces_closed_form p (or_intror W)) in H. discriminate.
  - intros [Hpos Hfrac]. apply buildTerrainFaces_fractional; assumption.
Qed.

Lemma buildTerrainFaces_dense_ids_whole_and_fractional :
  (exists faces,
     buildTerrainFaces TerrainParams.default = Ok faces
     /\ map Face.id faces = map Z.of_nat (seq 0 (List.length faces)))
  /\ buildTerrainFaces (TerrainParams.mk 10 2.5 2.5 rough) = TypeError.
Proof.
  split.
  - destruct (buildTerrainFaces TerrainParams.default) as [faces|] eqn:E.
    + exists faces. split; [reflexivity|].
      exact (proj1 (buildTerrainFaces_dense_ids TerrainParams.default) faces E).
    + apply (proj2 (buildTerrainFaces_dense_ids TerrainParams.default)) in E.
      destruct E as [_ Hfrac]. exfalso. apply Hfrac. exists 6%Z. reflexivity.
  - apply (proj2 (buildTerrainFaces_dense_ids (TerrainParams.mk 10 2.5 2.5 rough))).
    cbn [TerrainParams.divisions]. split; [lra|].
    intros [k Hk].
    assert (2 < k)%Z by (apply lt_IZR; lra).
    assert (k < 3)%Z by (apply lt_IZR; lra).
    lia.
Defined.

Lemma terrainFaces_consistent p f :
  In f (terrainFaces p) ->
  Face.normal f = triangleNormal (Face.a f) (Face.b f) (Face.c f)
  /\ Face.centroid f = triangleCentroid (Face.a f) (Face.b f) (Face.c f)
  /\ normalPerpendicular f.
Proof.
  intros Hin. apply in_terrainFaces in Hin as (i & j & _ & _ & Hin).
  assert (E : Face.normal f = triangleNormal (Face.a f) (Face.b f) (Face.c f)
              /\ Face.centroid f
                 = triangleCentroid (Face.a f) (Face.b f) (Face.c f))
    by (destruct Hin as [<-|[<-|[]]]; split; reflexivity).
  destruct E as [En Ec]. repeat split; try assumption.
  - rewrite En. apply triangleNormal_perpendicular.
  - rewrite En. apply triangleNormal_perpendicular.
Qed.

(** Every generated face is consistent with its own vertices in the order
    it stores them: its normal is their [triangleNormal], perpendicular to
    the face, and its centroid is their [triangleCentroid]. *)
Lemma buildTerrainFaces_faces_consistent (p : TerrainParams.t) faces f :
  buildTerrainFaces p = Ok faces ->
  In f faces ->
  Face.normal f = triangleNormal (Face.a f) (Face.b f) (Face.c f)
  /\ Face.centroid f = triangleCentroid (Face.a f) (Face.b f) (Face.c f)
  /\ normalPerpendicular f.
Proof.
  intros H Hin. apply buildTerrainFaces_returns in H as [-> _].
  exact (terrainFaces_consistent p f Hin).
Qed.

Lemma cellFaces_vertices p i j f v :
  In f (cellFaces p i j) ->
  In v [Face.a f; Face.b f; Face.c f] ->
  exists i' j', (i' <= i + 1)%nat /\ (j' <= j + 1)%nat
                /\ v = terrainVertex p i' j'.
Proof.
  intros Hf Hv.
  destruct Hf as [<-|[<-|[]]]; cbn [Face.a Face.b Face.c] in Hv;
    destruct Hv as [<-|[<-|[<-|[]]]];
    first [ exists i, j; repeat split; lia
          | exists (i + 1)%nat, j; repeat split; lia
          | exists i, (j + 1)%nat; repeat split; lia
          | exists (i + 1)%nat, (j + 1)%nat; repeat split; lia ].
Qed.

Lemma grid_coordinate_bounds size (d : R) (i : nat) :
  0 < size -> 0 < d -> wholeNumber d -> (i <= countBelow d)%nat ->
  - size / 2 <= - size / 2 + INR i * (size / d) <= size / 2.
Proof.
  intros Hs HD [k ->] Hi.
  assert (Hk : (0 < k)%Z) by (apply lt_IZR; exact HD).
  assert (Hi0 : 0 <= INR i) by apply pos_INR.
  assert (Hi1 : INR i <= IZR k).
  { rewrite countBelow_IZR in Hi. apply le_INR in Hi.
    rewrite (INR_IZR_INZ (Z.to_nat k)), Z2Nat.id in Hi by lia. exact Hi. }
  replace (INR i * (size / IZR k)) with (INR i / IZR k * size) by (field; lra).
  assert (Hinv : 0 < / IZR k) by (apply Rinv_0_lt_compat; exact HD).
  assert (Hq0 : 0 <= INR i / IZR k) by (unfold Rdiv; nra).
  assert (Hq1 : INR i / IZR k <= 1)
    by (apply (Rmult_le_reg_r (IZR k)); [lra|]; field_simplify; lra).
  split; nra.
Qed.

Lemma returns_for_whole p :
  wholeNumber (TerrainParams.divisions p) ->
  exists faces, buildTerrainFaces p = Ok faces.
Proof.
  intros W. exists (terrainFaces p).
  apply buildTerrainFaces_closed_form. right. exact W.
Qed.

Lemma returns_whole p faces :
  0 < TerrainParams.divisions p ->
  buildTerrainFaces p = Ok faces ->
  faces = terrainFaces p /\ wholeNumber (TerrainParams.divisions p).
Proof.
  intros Hd H. apply buildTerrainFaces_returns in H as [-> [Hle|W]].
  - lra.
  - split; [reflexivity | exact W].
Qed.

(** For a positive size and a positive division count, whenever the
    generator returns, every vertex of every generated face lies over the
    square of side [size] centred at the origin; and it does return when the
    count is an integer. *)
Theorem buildTerrainFaces_within_square (p : TerrainParams.t) :
  0 < TerrainParams.size p ->
  0 < TerrainParams.divisions p ->
  (forall faces,
     buildTerrainFaces p = Ok faces ->
     forall f v, In f faces -> In v [Face.a f; Face.b f; Face.c f] ->
       - TerrainParams.size p / 2 <= Vector3.x v <= TerrainParams.size p / 2
       /\ - TerrainParams.size p / 2 <= Vector3.z v <= TerrainParams.size p / 2)
  /\ (wholeNumber (TerrainParams.divisions p) ->
      exists faces, buildTerrainFaces p = Ok faces).
Proof.
  intros Hs Hd. split; [|apply returns_for_whole].
  intros faces H f v Hf Hv.
  apply (returns_whole p faces Hd) in H as [-> W].
  apply in_terrainFaces in Hf as (i & j & Hi & Hj & Hf).
  destruct (cellFaces_vertices p i j f v Hf Hv) as (i' & j' & Hi' & Hj' & ->).
  unfold terrainVertex, gridVertex. cbn [Vector3.x Vector3.z].
  split; apply grid_coordinate_bounds; try assumption; lia.
Qed.

Lemma buildTerrainFaces_within_square_default :
  exists faces,
    buildTerrainFaces TerrainParams.default = Ok faces
    /\ forall f v, In f faces -> In v [Face.a f; Face.b f; Face.c f] ->
         - TerrainParams.size TerrainParams.default / 2 <= Vector3.x v
           <= TerrainParams.size TerrainParams.default / 2
         /\ - TerrainParams.size TerrainParams.default / 2 <= Vector3.z v
            <= TerrainParams.size TerrainParams.default / 2.
Proof.
  assert (Hs : 0 < TerrainParams.size TerrainParams.default) by (cbn; lra).
  assert (Hd : 0 < TerrainParams.divisions TerrainParams.default) by (cbn; lra).
  assert (W : wholeNumber (TerrainParams.divisions TerrainParams.default))
    by (exists 6%Z; reflexivity).
  destruct (buildTerrainFaces_within_square TerrainParams.default Hs Hd)
    as [Hall Hreturns].
  destruct (Hreturns W) as [faces H].
  exists faces. split; [exact H | exact (Hall faces H)].
Defined.

(** *** Heights *)

Lemma pseudoRandom_range x y : 0 <= pseudoRandom x y < 1.
Proof.
  unfold pseudoRandom, Num.floor. cbv zeta.
  set (seed := sin (x * 12.9898 + y * 78.233) * 43758.5453).
  destruct (base_fp seed) as [H0 H1]. unfold frac_part in H0, H1. lra.
Qed.

Lemma sin_cos_product_bound s c : -1 <= sin s * cos c <= 1.
Proof.
  pose proof (SIN_bound s) as [Hs0 Hs1].
  pose proof (COS_bound c) as [Hc0 Hc1].
  split; nra.
Qed.

Lemma scaled_bound t m h :
  - m <= t <= m -> Rabs (t * h) <= m * Rabs h.
Proof.
  intros [H0 H1]. unfold Rabs.
  destruct (Rcase_abs (t * h)), (Rcase_abs h); nra.
Qed.

(** The pseudo-random perturbation lies in [0, 1), and the height of every
    grid vertex is bounded, in absolute value, by the amplitude of the
    profile (0 flat, 0.7 hills, 1.6 valleys, 0.6 rough) times the absolute
    height scale.  With a height scale of at most 2.5 in absolute value,
    the default included, no vertex is as low as the reset threshold. *)
Theorem generateTerrainHeight_bounded
    (i j : R) (type : TerrainType) (height : R) :
  0 <= pseudoRandom i j < 1
  /\ Rabs (generateTerrainHeight i j type height)
     <= profileAmplitude type * Rabs height
  /\ (Rabs height <= 2.5 ->
      resetThreshold < generateTerrainHeight i j type height).
Proof.
  split; [apply pseudoRandom_range|].
  assert (B : Rabs (generateTerrainHeight i j type height)
              <= profileAmplitude type * Rabs height).
  { pose proof (pseudoRandom_range i j) as Hr.
    destruct type; unfold generateTerrainHeight, profileAmplitude; cbv zeta.
    - pose proof (sin_cos_product_bound (i * 0.5) (j * 0.5)).
      pose proof (sin_cos_product_bound (i * 0.3) (j * 0.4)).
      match goal with
      | |- Rabs (?t * height * ?k) <= _ =>
          replace (t * height * k) with (t * k * height) by ring
      end.
      apply scaled_bound. lra.
    - rewrite Rabs_R0. pose proof (Rabs_pos height). lra.
    - pose proof (sin_cos_product_bound (i * 0.4) (j * 0.4)).
      pose proof (sin_cos_product_bound (i * 0.7) (j * 0.6)).
      match goal with
      | |- Rabs (?t * height * ?k) <= _ =>
          replace (t * height * k) with (t * k * height) by ring
      end.
      apply scaled_bound. lra.
    - pose proof (sin_cos_product_bound (i * 0.8) (j * 0.8)).
      pose proof (sin_cos_product_bound (i * 1.3) (j * 0.9)).
      pose proof (sin_cos_product_bound (i * 2.1) (j * 1.8)).
      match goal with
      | |- Rabs (?t * height * ?k) <= _ =>
          replace (t * height * k) with (t * k * height) by ring
      end.
      apply scaled_bound. lra. }
  split; [exact B|].
  intros Hh. unfold resetThreshold.
  assert (Ha : 0 <= profileAmplitude type <= 1.6)
    by (destruct type; cbn; lra).
  pose proof (Rabs_pos height) as Hp.
  assert (Hb : Rabs (generateTerrainHeight i j type height) <= 4) by nra.
  revert Hb. unfold Rabs. destruct (Rcase_abs _); lra.
Qed.

(** *** The flat profile *)

Lemma normalize_vertical w k :
  0 < k -> Vector3.x w = 0 -> Vector3.y w = k -> Vector3.z w = 0 ->
  Vector3.normalize w = Vector3.mk 0 1 0.
Proof.
  intros Hk Hx Hy Hz.
  unfold Vector3.normalize, Vector3.length, Vector3.lengthSq, Num.or_else.
  rewrite Hx, Hy, Hz.
  replace (0 * 0 + k * k + 0 * 0) with (k * k) by ring.
  rewrite sqrt_square by lra.
  assert (E : Num.eqb k 0 = false) by (apply NumFacts.eqb_false; lra).
  rewrite E.
  apply Vector3_eq; vec_components; rewrite ?Hx, ?Hy, ?Hz; field; lra.
Qed.

Lemma flat_cell_faces p i j id f :
  TerrainParams.type p = smooth ->
  0 < TerrainParams.size p -> 0 < TerrainParams.divisions p ->
  In f (cellFacesFrom p i j id) ->
  Face.normal f = Vector3.mk 0 1 0
  /\ Vector3.y (Face.a f) = 0 /\ Vector3.y (Face.b f) = 0
  /\ Vector3.y (Face.c f) = 0.
Proof.
  intros Ht Hs Hd Hin.
  assert (Hstep : 0 < TerrainParams.size p / TerrainParams.divisions p).
  { apply Rdiv_lt_0_compat; assumption. }
  set (step := TerrainParams.size p / TerrainParams.divisions p) in *.
  assert (Hi : INR (i + 1) = INR i + 1) by (rewrite Nat.add_1_r; apply S_INR).
  assert (Hj : INR (j + 1) = INR j + 1) by (rewrite Nat.add_1_r; apply S_INR).
  destruct Hin as [<-|[<-|[]]]; cbn [Face.normal Face.a Face.b Face.c];
    (split;
     [ unfold triangleNormal; apply (normalize_vertical _ (step * step));
       [ nra | | | ];
       unfold terrainVertex, gridVertex; fold step; rewrite Ht;
       vec_components; cbn [generateTerrainHeight]; rewrite ?Hi, ?Hj; ring
     | unfold terrainVertex, gridVertex; rewrite Ht;
       cbn [Vector3.y generateTerrainHeight]; repeat split; reflexivity ]).
Qed.

(** With the flat profile, a positive size and a positive division count,
    whenever the generator returns, every generated face lies in the plane
    [y = 0] and has the normal (0, 1, 0) exactly, so that the ground over
    any point is at height 0 wherever a face supports it; and the generator
    does return when the count is an integer. *)
Theorem buildTerrainFaces_flat_profile (p : TerrainParams.t) :
  TerrainParams.type p = smooth ->
  0 < TerrainParams.size p ->
  0 < TerrainParams.divisions p ->
  (forall faces,
     buildTerrainFaces p = Ok faces ->
     (forall f, In f faces ->
        Face.normal f = Vector3.mk 0 1 0
        /\ Vector3.y (Face.a f) = 0 /\ Vector3.y (Face.b f) = 0
        /\ Vector3.y (Face.c f) = 0)
     /\ (forall x z g, getGroundInfo x z faces = Some g -> GroundInfo.y g = 0))
  /\ (wholeNumber (TerrainParams.divisions p) ->
      exists faces, buildTerrainFaces p = Ok faces).
Proof.
  intros Ht Hs Hd. split; [|apply returns_for_whole].
  intros faces H. apply (returns_whole p faces Hd) in H as [-> _].
  assert (Hflat : forall f, In f (terrainFaces p) ->
            Face.normal f = Vector3.mk 0 1 0
            /\ Vector3.y (Face.a f) = 0 /\ Vector3.y (Face.b f) = 0
            /\ Vector3.y (Face.c f) = 0).
  { intros f Hin. apply in_terrainFaces in Hin as (i & j & _ & _ & Hin).
    exact (flat_cell_faces p i j _ f Ht Hs Hd Hin). }
  split; [exact Hflat|].
  intros x z g Hg.
  pose proof (getGroundInfo_result x z (terrainFaces p)) as H. rewrite Hg in H.
  destruct (groundResult_attained _ _ _ _ H) as (f & Hin & _ & ->).
  destruct (Hflat f Hin) as (Hn & Ha & _ & _).
  cbn [groundOf GroundInfo.y]. unfold planeHeight. cbv zeta.
  rewrite Hn, Ha. cbn [Vector3.x Vector3.y Vector3.z]. field.
Qed.

Lemma buildTerrainFaces_flat_profile_default_size :
  exists faces,
    buildTerrainFaces (TerrainParams.mk 10 6 2.5 smooth) = Ok faces
    /\ (forall f, In f faces ->
          Face.normal f = Vector3.mk 0 1 0
          /\ Vector3.y (Face.a f) = 0 /\ Vector3.y (Face.b f) = 0
          /\ Vector3.y (Face.c f) = 0)
    /\ (forall x z g, getGroundInfo x z faces = Some g -> GroundInfo.y g = 0).
Proof.
  assert (Hs : 0 < TerrainParams.size (TerrainParams.mk 10 6 2.5 smooth))
    by (cbn; lra).
  assert (Hd : 0 < TerrainParams.divisions (TerrainParams.mk 10 6 2.5 smooth))
    by (cbn; lra).
  assert (W : wholeNumber
                (TerrainParams.divisions (TerrainParams.mk 10 6 2.5 smooth)))
    by (exists 6%Z; reflexivity).
  destruct (buildTerrainFaces_flat_profile (TerrainParams.mk 10 6 2.5 smooth)
              eq_refl Hs Hd) as [Hall Hreturns].
  destruct (Hreturns W) as [faces H].
  exists faces. split; [exact H | exact (Hall faces H)].
Defined.

(** *** The terrain under the ground query *)

Lemma upward_face_nonDegenerate f :
  Face.normal f = triangleNormal (Face.a f) (Face.b f) (Face.c f) ->
  Vector3.y (Face.normal f) <> 0 ->
  nonDegenerate (Face.a f) (Face.b f) (Face.c f).
Proof.
  intros En Hy Hz. apply Hy. rewrite En. unfold triangleNormal.
  rewrite normalize_of_zero_length; [reflexivity|].
  pose proof (f_equal Vector3.x Hz) as Hx.
  pose proof (f_equal Vector3.y Hz) as Hy'.
  pose proof (f_equal Vector3.z Hz) as Hz'.
  revert Hx Hy' Hz'. vec_components. intros Hx Hy' Hz'.
  match goal with
  | |- ?l = 0 =>
      match type of Hx with ?X = 0 =>
      match type of Hy' with ?Y = 0 =>
      match type of Hz' with ?Z = 0 =>
        replace l with (X * X + Y * Y + Z * Z) by ring
      end end end
  end.
  rewrite Hx, Hy', Hz'. ring.
Qed.

(** For a positive size and a positive division count, whenever the
    generator returns, the generated terrain supports every point of each of
    its faces whose normal has a vertical component of at least 1e-4: at the
    horizontal position of a point of the face that passes the inside test,
    the query over the whole terrain finds a ground, at least as high as the
    point; and the generator does return when the count is an integer. *)
Theorem buildTerrainFaces_supports_its_faces (p : TerrainParams.t) :
  0 < TerrainParams.size p ->
  0 < TerrainParams.divisions p ->
  (forall faces,
     buildTerrainFaces p = Ok faces ->
     forall f u v,
       In f faces ->
       1e-4 <= Vector3.y (Face.normal f) ->
       baryInside u v = true ->
       let pt := baryPoint (Face.a f) (Face.b f) (Face.c f) u v in
       exists g, getGroundInfo (Vector3.x pt) (Vector3.z pt) faces = Some g
                 /\ Vector3.y pt <= GroundInfo.y g)
  /\ (wholeNumber (TerrainParams.divisions p) ->
      exists faces, buildTerrainFaces p = Ok faces).
Proof.
  intros Hs Hd. split; [|apply returns_for_whole].
  intros faces H. apply (returns_whole p faces Hd) in H as [-> _].
  intros f u v Hin Hy Hu pt.
  destruct (terrainFaces_consistent p f Hin) as (En & _ & Hperp).
  assert (Hnd : nonDegenerate (Face.a f) (Face.b f) (Face.c f))
    by (apply upward_face_nonDegenerate; [exact En | lra]).
  assert (Habs : 1e-4 <= Rabs (Vector3.y (Face.normal f)))
    by (rewrite Rabs_right; lra).
  destruct (supports_point_of_face f u v Hperp Hnd Habs Hu) as [Hsup Hh].
  fold pt in Hsup, Hh.
  destruct (getGroundInfo_some_of_support _ _ (terrainFaces p) f Hin Hsup)
    as (g & Hg & Hle).
  exists g. split; [exact Hg | lra].
Qed.

Lemma buildTerrainFaces_supports_its_faces_default :
  exists faces,
    buildTerrainFaces TerrainParams.default = Ok faces
    /\ forall f u v,
         In f faces ->
         1e-4 <= Vector3.y (Face.normal f) ->
         baryInside u v = true ->
         let pt := baryPoint (Face.a f) (Face.b f) (Face.c f) u v in
         exists g, getGroundInfo (Vector3.x pt) (Vector3.z pt) faces = Some g
                   /\ Vector3.y pt <= GroundInfo.y g.
Proof.
  assert (Hs : 0 < TerrainParams.size TerrainParams.default) by (cbn; lra).
  assert (Hd : 0 < TerrainParams.divisions TerrainParams.default) by (cbn; lra).
  assert (W : wholeNumber (TerrainParams.divisions TerrainParams.default))
    by (exists 6%Z; reflexivity).
  destruct (buildTerrainFaces_supports_its_faces TerrainParams.default Hs Hd)
    as [Hall Hreturns].
  destruct (Hreturns W) as [faces H].
  exists faces. split; [exact H | exact (Hall faces H)].
Defined.

(** ** The step in keyboard mode, continued *)

Lemma applyInput_without_input keys v :
  hasInput keys = false ->
  applyInput keys v
  = Vector3.mk (Vector3.x v * 0.9) (Vector3.y v) (Vector3.z v * 0.9).
Proof.
  unfold hasInput, applyInput.
  destruct keys as [w a s d]; cbn [Keys.w Keys.a Keys.s Keys.d].
  destruct w, a, s, d; cbn [Bool.eqb negb orb pressed]; try discriminate;
    intros _; vec_components; num_eval; reflexivity.
Qed.

Lemma applyInput_with_input keys v :
  hasInput keys = true ->
  Vector3.x (applyInput keys v) * Vector3.x (applyInput keys v)
  + Vector3.z (applyInput keys v) * Vector3.z (applyInput keys v)
  = speed * speed.
Proof.
  intros H. unfold applyInput.
  set (input := Vector3.mk (pressed (Keys.d keys) - pressed (Keys.a keys)) 0
                  (pressed (Keys.w keys) - pressed (Keys.s keys))).
  assert (Hpos : 0 < Vector3.lengthSq input).
  { unfold input, hasInput in *.
    destruct keys as [w a s d]; cbn [Keys.w Keys.a Keys.s Keys.d] in *.
    destruct w, a, s, d; cbn [Bool.eqb negb orb pressed] in *;
      try discriminate; vec_components; lra. }
  assert (E : Num.gtb (Vector3.lengthSq input) 0 = true)
    by (apply NumFacts.gtb_true; lra).
  rewrite E.
  pose proof (normalize_lengthSq input Hpos) as Hu.
  rewrite (normalize_scale input Hpos) in Hu |- *.
  set (k := 1 / Vector3.length input) in *.
  unfold input in Hu |- *.
  set (ix := pressed (Keys.d keys) - pressed (Keys.a keys)) in *.
  set (iz := pressed (Keys.w keys) - pressed (Keys.s keys)) in *.
  revert Hu.
  cbv [Vector3.set_x Vector3.set_z Vector3.multiplyScalar Vector3.lengthSq].
  cbn [Vector3.x Vector3.y Vector3.z]. intros Hu.
  transitivity (speed * speed * (ix * k * (ix * k) + 0 * k * (0 * k)
                                 + iz * k * (iz * k))); [ring|].
  rewrite Hu. ring.
Qed.

Lemma keyboardStep_cases props keys delta now st :
  let s1 := integrate keys delta st in
  (groundQuery props keys delta st = None
   /\ keyboardStep props keys delta now st = recover props s1)
  \/ (exists g,
        groundQuery props keys delta st = Some (Some g)
        /\ contactWith props s1 = Some g
        /\ Vector3.y (Ball.position s1) <= GroundInfo.y g + Props.radius props
        /\ keyboardStep props keys delta now st = resolveContact now g props s1)
  \/ (exists r,
        groundQuery props keys delta st = Some r
        /\ contactWith props s1 = None
        /\ airborne props s1 r
        /\ keyboardStep props keys delta now st = noContact now s1).
Proof.
  intros s1. unfold groundQuery, keyboardStep, contactWith. fold s1.
  destruct (outOfBounds (Ball.position s1)).
  - left. split; reflexivity.
  - right.
    destruct (getGroundInfo (Vector3.x (Ball.position s1))
                (Vector3.z (Ball.position s1)) (Props.faces props)) as [g|].
    + destruct (Num.leb (Vector3.y (Ball.position s1))
                  (GroundInfo.y g + Props.radius props)) eqn:E.
      * left. exists g. apply NumFacts.leb_true in E. repeat split; assumption.
      * right. exists (Some g). apply NumFacts.leb_false in E.
        repeat split. exact E.
    + right. exists None. repeat split.
Qed.

Lemma faceChanged_false id current :
  faceChanged id current = false -> current = Some id.
Proof.
  destruct current as [k|]; cbn; [|discriminate].
  intros H. apply negb_false_iff, Z.eqb_eq in H. subst. reflexivity.
Qed.

Ltac events_absurd :=
  let v := fresh "v" in
  let Hin := fresh "Hin" in
  intros (v & Hin); cbn in Hin;
  repeat match goal with
         | H : _ \/ _ |- _ => destruct H
         | H : False |- _ => destruct H
         | H : onHighlightFace _ = onVectorUpdate _ |- _ => discriminate H
         end.

Lemma resolveContact_notifications now g props st :
  let r := resolveContact now g props st in
  let due := Num.gtb (now - Ball.lastVectorUpdate st) 50 in
  Ball.currentFaceId (fst r) = Some (GroundInfo.id g)
  /\ shownHighlight (Ball.currentFaceId st) (snd r) = Some (GroundInfo.id g)
  /\ Ball.lastVectorUpdate (fst r)
     = (if due then now else Ball.lastVectorUpdate st)
  /\ ((exists v, In (onVectorUpdate v) (snd r)) <-> due = true).
Proof.
  unfold resolveContact.
  set (s' := Ball.with_contact _ _ _ _ _ _).
  change (Ball.lastVectorUpdate s') with (Ball.lastVectorUpdate st).
  destruct (Num.gtb (now - Ball.lastVectorUpdate st) 50).
  - change (Ball.currentFaceId (Ball.with_lastVectorUpdate s' now))
      with (Ball.currentFaceId st).
    destruct (faceChanged (GroundInfo.id g) (Ball.currentFaceId st)) eqn:F;
      cbn; try (apply faceChanged_false in F; rewrite F);
      repeat split; try reflexivity;
      intros _; eexists; left; reflexivity.
  - change (Ball.currentFaceId s') with (Ball.currentFaceId st).
    destruct (faceChanged (GroundInfo.id g) (Ball.currentFaceId st)) eqn:F;
      cbn; try (apply faceChanged_false in F; rewrite F);
      repeat split; try reflexivity; try discriminate; events_absurd.
Qed.

Lemma noContact_notifications now st :
  let r := noContact now st in
  let due := Num.gtb (now - Ball.lastVectorUpdate st) 100 in
  Ball.currentFaceId (fst r) = None
  /\ shownHighlight (Ball.currentFaceId st) (snd r) = None
  /\ Ball.lastVectorUpdate (fst r)
     = (if due then now else Ball.lastVectorUpdate st)
  /\ ((exists v, In (onVectorUpdate v) (snd r)) <-> due = true).
Proof.
  unfold noContact.
  destruct (Ball.currentFaceId st) as [k|] eqn:F;
    cbn [Ball.lastVectorUpdate Ball.with_currentFaceId];
    destruct (Num.gtb (now - Ball.lastVectorUpdate st) 100);
    cbn; rewrite ?F;
    repeat split; try reflexivity; try discriminate;
    try (intros _; eexists; left; reflexivity);
    try (intros _; eexists; right; left; reflexivity);
    events_absurd.
Qed.

Lemma contactWith_some props st g :
  contactWith props st = Some g ->
  getGroundInfo (Vector3.x (Ball.position st)) (Vector3.z (Ball.position st))
    (Props.faces props) = Some g.
Proof.
  unfold contactWith.
  destruct (getGroundInfo _ _ _) as [g0|]; [|discriminate].
  destruct (Num.leb _ _); [|discriminate]. intros [= ->]. reflexivity.
Qed.

(** After a keyboard step in which the query found a ground, the ball is
    still over that ground and not below its resting height: either it was
    above [g.y + radius] and stays where integration put it, or it is
    snapped to exactly [g.y + radius]. *)
Theorem keyboard_step_ends_on_or_above_ground
    (props : Props.t) (keys : Keys.t) (dt now : R) (st : Ball.t)
    (g : GroundInfo.t) :
  Props.keyboardControl props = true ->
  groundQuery props keys (Rmin dt (1 / 60)) st = Some (Some g) ->
  let s2 := fst (useFrame props keys dt now st) in
  getGroundInfo (Vector3.x (Ball.position s2)) (Vector3.z (Ball.position s2))
    (Props.faces props) = Some g
  /\ GroundInfo.y g + Props.radius props <= Vector3.y (Ball.position s2).
Proof.
  intros Hk Hq s2. subst s2. rewrite (useFrame_keyboard _ _ _ _ _ Hk).
  destruct (groundQuery_some _ _ _ _ _ Hq) as [_ Hg].
  destruct (keyboardStep_cases props keys (Rmin dt (1 / 60)) now st)
    as [[Hn _]|[(g' & Hq' & _ & _ & ->)|(r & Hq' & _ & Ha & ->)]].
  - rewrite Hq in Hn. discriminate.
  - rewrite Hq in Hq'. injection Hq' as <-.
    destruct (resolveContact_body now g props
                (integrate keys (Rmin dt (1 / 60)) st)) as [-> _].
    cbn [Vector3.set_y Vector3.x Vector3.y Vector3.z].
    split; [exact Hg | lra].
  - rewrite Hq in Hq'. injection Hq' as <-.
    destruct (noContact_body now (integrate keys (Rmin dt (1 / 60)) st))
      as [-> _].
    split; [exact Hg|]. unfold airborne in Ha. lra.
Qed.

Lemma keyboard_step_ends_on_or_above_ground_resting :
  let s2 := fst (useFrame (keyboardProps [upFace]) Keys.none (1 / 60) 0
                   (ballAt (Vector3.mk 0 0.25 0) Vector3.zero)) in
  getGroundInfo (Vector3.x (Ball.position s2)) (Vector3.z (Ball.position s2))
    (Props.faces (keyboardProps [upFace]))
  = Some (GroundInfo.mk 0 (Vector3.mk 0 1 0) 0%Z)
  /\ GroundInfo.y (GroundInfo.mk 0 (Vector3.mk 0 1 0) 0%Z)
     + Props.radius (keyboardProps [upFace])
     <= Vector3.y (Ball.position s2).
Proof.
  apply (keyboard_step_ends_on_or_above_ground (keyboardProps [upFace])
           Keys.none (1 / 60) 0 (ballAt (Vector3.mk 0 0.25 0) Vector3.zero)
           (GroundInfo.mk 0 (Vector3.mk 0 1 0) 0%Z)).
  - reflexivity.
  - exact resting_ball_query.
Defined.

Lemma keyboard_step_horizontal_velocity props keys delta now st r :
  groundQuery props keys delta st = Some r ->
  Vector3.x (Ball.velocityRef (fst (keyboardStep props keys delta now st)))
  = Vector3.x (applyInput keys (Ball.velocityRef st))
  /\ Vector3.z (Ball.velocityRef (fst (keyboardStep props keys delta now st)))
     = Vector3.z (applyInput keys (Ball.velocityRef st)).
Proof.
  intros Hq.
  destruct (keyboardStep_cases props keys delta now st)
    as [[Hn _]|[(g' & _ & _ & _ & ->)|(r' & _ & _ & _ & ->)]].
  - rewrite Hq in Hn. discriminate.
  - destruct (resolveContact_body now g' props (integrate keys delta st))
      as [_ ->]. split; reflexivity.
  - destruct (noContact_body now (integrate keys delta st)) as [_ ->].
    split; reflexivity.
Qed.

Lemma Rabs_damped t : Rabs (t * 0.9) <= Rabs t.
Proof. unfold Rabs. destruct (Rcase_abs (t * 0.9)), (Rcase_abs t); lra. Qed.

(** With no direction from the keys (none pressed, or opposite keys
    cancelling), no keyboard step increases the horizontal velocity in
    absolute value: each horizontal component is multiplied by 0.9, in every
    step that is not an out-of-bounds recovery, and is zero after a
    recovery. *)
Theorem keyboard_damping_without_input
    (props : Props.t) (keys : Keys.t) (dt now : R) (st : Ball.t) :
  Props.keyboardControl props = true ->
  hasInput keys = false ->
  let v := Ball.velocityRef st in
  let v2 := Ball.velocityRef (fst (useFrame props keys dt now st)) in
  Rabs (Vector3.x v2) <= Rabs (Vector3.x v)
  /\ Rabs (Vector3.z v2) <= Rabs (Vector3.z v)
  /\ (forall r, groundQuery props keys (Rmin dt (1 / 60)) st = Some r ->
        Vector3.x v2 = Vector3.x v * 0.9 /\ Vector3.z v2 = Vector3.z v * 0.9)
  /\ (groundQuery props keys (Rmin dt (1 / 60)) st = None ->
        v2 = Vector3.mk 0 0 0).
Proof.
  intros Hk Hi v v2. subst v2. rewrite (useFrame_keyboard _ _ _ _ _ Hk).
  destruct (groundQuery props keys (Rmin dt (1 / 60)) st) as [r|] eqn:Hq.
  - destruct (keyboard_step_horizontal_velocity props keys _ now st r Hq)
      as [Hx Hz].
    rewrite (applyInput_without_input keys _ Hi) in Hx, Hz.
    cbn [Vector3.x Vector3.z] in Hx, Hz. rewrite Hx, Hz.
    repeat split; try apply Rabs_damped. discriminate.
  - destruct (keyboardStep_cases props keys (Rmin dt (1 / 60)) now st)
      as [[_ ->]|[(g' & Hq' & _)|(r' & Hq' & _)]];
      try (rewrite Hq in Hq'; discriminate).
    cbn [recover fst Ball.velocityRef Ball.with_currentFaceId Ball.with_velocity
         Vector3.zero Vector3.x Vector3.z].
    rewrite Rabs_R0. repeat split; try apply Rabs_pos; discriminate.
Qed.

Lemma keyboard_damping_without_input_falling :
  let v := Ball.velocityRef (ballAt (Vector3.mk 0 2 0) (Vector3.mk 3 0 (-2))) in
  let v2 := Ball.velocityRef
              (fst (useFrame (keyboardProps [upFace]) Keys.none (1 / 60) 0
                      (ballAt (Vector3.mk 0 2 0) (Vector3.mk 3 0 (-2))))) in
  Rabs (Vector3.x v2) <= Rabs (Vector3.x v)
  /\ Rabs (Vector3.z v2) <= Rabs (Vector3.z v)
  /\ (forall r, groundQuery (keyboardProps [upFace]) Keys.none
                  (Rmin (1 / 60) (1 / 60))
                  (ballAt (Vector3.mk 0 2 0) (Vector3.mk 3 0 (-2))) = Some r ->
        Vector3.x v2 = Vector3.x v * 0.9 /\ Vector3.z v2 = Vector3.z v * 0.9)
  /\ (groundQuery (keyboardProps [upFace]) Keys.none (Rmin (1 / 60) (1 / 60))
        (ballAt (Vector3.mk 0 2 0) (Vector3.mk 3 0 (-2))) = None ->
        v2 = Vector3.mk 0 0 0).
Proof.
  apply (keyboard_damping_without_input (keyboardProps [upFace]) Keys.none
           (1 / 60) 0 (ballAt (Vector3.mk 0 2 0) (Vector3.mk 3 0 (-2)))).
  - reflexivity.
  - reflexivity.
Defined.

(** When the keys give a direction, the horizontal speed after the step is
    exactly [speed] (5), whatever the velocity before and whether one key or
    two adjacent keys are held: a diagonal is not faster.  This holds after
    the input stage and at the end of every step that is not a recovery. *)
Theorem keyboard_input_sets_speed
    (props : Props.t) (keys : Keys.t) (dt now : R) (st : Ball.t) :
  Props.keyboardControl props = true ->
  hasInput keys = true ->
  let v1 := applyInput keys (Ball.velocityRef st) in
  let v2 := Ball.velocityRef (fst (useFrame props keys dt now st)) in
  Vector3.x v1 * Vector3.x v1 + Vector3.z v1 * Vector3.z v1 = speed * speed
  /\ Vector3.y v1 = Vector3.y (Ball.velocityRef st)
  /\ (forall r, groundQuery props keys (Rmin dt (1 / 60)) st = Some r ->
        Vector3.x v2 * Vector3.x v2 + Vector3.z v2 * Vector3.z v2
        = speed * speed).
Proof.
  intros Hk Hi v1 v2. subst v2. rewrite (useFrame_keyboard _ _ _ _ _ Hk).
  split; [apply applyInput_with_input, Hi|].
  split; [apply applyInput_y|].
  intros r Hq.
  destruct (keyboard_step_horizontal_velocity props keys _ now st r Hq)
    as [-> ->].
  apply applyInput_with_input, Hi.
Qed.

Lemma keyboard_input_sets_speed_diagonal :
  let keys := Keys.mk true false false true in
  let st := ballAt (Vector3.mk 0 2 0) (Vector3.mk 1 0 1) in
  let v1 := applyInput keys (Ball.velocityRef st) in
  let v2 := Ball.velocityRef
              (fst (useFrame (keyboardProps [upFace]) keys (1 / 60) 0 st)) in
  Vector3.x v1 * Vector3.x v1 + Vector3.z v1 * Vector3.z v1 = speed * speed
  /\ Vector3.y v1 = Vector3.y (Ball.velocityRef st)
  /\ (forall r, groundQuery (keyboardProps [upFace]) keys
                  (Rmin (1 / 60) (1 / 60)) st = Some r ->
        Vector3.x v2 * Vector3.x v2 + Vector3.z v2 * Vector3.z v2
        = speed * speed).
Proof.
  apply (keyboard_input_sets_speed (keyboardProps [upFace])
           (Keys.mk true false false true) (1 / 60) 0
           (ballAt (Vector3.mk 0 2 0) (Vector3.mk 1 0 1))).
  - reflexivity.
  - reflexivity.
Defined.

Lemma delta_bounds dt : 0 < dt -> 0 < Rmin dt (1 / 60) <= 1 / 60.
Proof. intros H. unfold Rmin. destruct (Rle_dec dt (1 / 60)); lra. Qed.

(** Rest in keyboard mode.  A ball with zero velocity rests on the ground
    under it ([position.y = g.y + radius]), its horizontal coordinates at
    most [0.6 * terrainSize] in absolute value, with no direction from the
    keys.  A step of positive duration first lets it fall by
    [9.81 * delta * delta], which is less than 0.01.  When the height it
    falls to is not below [resetThreshold], which is so for every duration
    when [position.y >= resetThreshold + 0.01], the step returns it to the
    same position with the same velocity: rest is a fixed point.  When that
    height is below [resetThreshold], the step is the out-of-bounds recovery
    instead. *)
Theorem keyboard_rest_is_fixed_point
    (props : Props.t) (keys : Keys.t) (dt now : R) (st : Ball.t)
    (g : GroundInfo.t) :
  Props.keyboardControl props = true ->
  hasInput keys = false ->
  0 < dt ->
  Ball.velocityRef st = Vector3.mk 0 0 0 ->
  getGroundInfo (Vector3.x (Ball.position st)) (Vector3.z (Ball.position st))
    (Props.faces props) = Some g ->
  Vector3.y (Ball.position st) = GroundInfo.y g + Props.radius props ->
  Rabs (Vector3.x (Ball.position st)) <= terrainSize * 0.6 ->
  Rabs (Vector3.z (Ball.position st)) <= terrainSize * 0.6 ->
  let fall := gravity * Rmin dt (1 / 60) * Rmin dt (1 / 60) in
  - 0.01 < fall < 0
  /\ (resetThreshold <= Vector3.y (Ball.position st) + fall ->
      Ball.position (fst (useFrame props keys dt now st)) = Ball.position st
      /\ Ball.velocityRef (fst (useFrame props keys dt now st))
         = Ball.velocityRef st)
  /\ (Vector3.y (Ball.position st) + fall < resetThreshold ->
      useFrame props keys dt now st = recover props (integrated keys dt st)).
Proof.
  intros Hk Hi Hdt Hv Hg Hy Hx Hz fall. subst fall.
  rewrite (useFrame_keyboard _ _ _ _ _ Hk). unfold integrated.
  pose proof (delta_bounds dt Hdt) as [Hd0 Hd1].
  set (delta := Rmin dt (1 / 60)) in *.
  set (s1 := integrate keys delta st).
  assert (Ev : Ball.velocityRef s1 = Vector3.mk 0 (gravity * delta) 0).
  { unfold s1, integrate, applyGravity.
    cbn [Ball.velocityRef Ball.with_position Ball.with_velocity].
    rewrite (applyInput_without_input keys _ Hi), Hv.
    apply Vector3_eq; cbn [Vector3.set_y Vector3.x Vector3.y Vector3.z]; lra. }
  assert (Ep : Ball.position s1
               = Vector3.mk (Vector3.x (Ball.position st))
                   (Vector3.y (Ball.position st) + gravity * delta * delta)
                   (Vector3.z (Ball.position st))).
  { unfold s1, integrate.
    cbn [Ball.position Ball.with_position Ball.with_velocity].
    fold (integrate keys delta st). unfold applyGravity.
    rewrite (applyInput_without_input keys _ Hi), Hv.
    apply Vector3_eq; vec_components;
      cbv [Vector3.addScaledVector Vector3.set_y];
      cbn [Vector3.x Vector3.y Vector3.z]; lra. }
  assert (Hfall : - 0.01 < gravity * delta * delta < 0)
    by (unfold gravity; nra).
  split; [exact Hfall|]. split.
  - intros Hlow.
    assert (Hq : groundQuery props keys delta st = Some (Some g)).
    { unfold groundQuery. fold s1. rewrite Ep.
      cbn [Vector3.x Vector3.y Vector3.z]. rewrite Hg.
      assert (Eb : outOfBounds
                     (Vector3.mk (Vector3.x (Ball.position st))
                        (Vector3.y (Ball.position st) + gravity * delta * delta)
                        (Vector3.z (Ball.position st))) = false).
      { unfold outOfBounds. cbn [Vector3.x Vector3.y Vector3.z].
        assert (E1 : Num.ltb (Vector3.y (Ball.position st)
                              + gravity * delta * delta)
                       resetThreshold = false)
          by (apply NumFacts.ltb_false; exact Hlow).
        assert (E2 : Num.gtb (Rabs (Vector3.x (Ball.position st)))
                       (terrainSize * 0.6) = false)
          by (apply NumFacts.gtb_false; exact Hx).
        assert (E3 : Num.gtb (Rabs (Vector3.z (Ball.position st)))
                       (terrainSize * 0.6) = false)
          by (apply NumFacts.gtb_false; exact Hz).
        rewrite E1, E2, E3. reflexivity. }
      rewrite Eb. reflexivity. }
    assert (Hc : Vector3.y (Ball.position s1)
                 <= GroundInfo.y g + Props.radius props)
      by (rewrite Ep; cbn [Vector3.y]; lra).
    rewrite (keyboardStep_contact props keys delta now st g Hq Hc). fold s1.
    destruct (resolveContact_body now g props s1) as [-> ->].
    rewrite Ep, Ev, Hv. split.
    + apply Vector3_eq; cbn [Vector3.set_y Vector3.x Vector3.y Vector3.z];
        try reflexivity.
      rewrite Hy. reflexivity.
    + apply Vector3_eq; cbn [Vector3.set_y Vector3.x Vector3.y Vector3.z];
        try reflexivity.
      apply Rmax_left. unfold gravity. lra.
  - intros Hbelow. unfold keyboardStep. fold s1.
    rewrite (outOfBounds_true (Ball.position s1)); [reflexivity|].
    left. rewrite Ep. cbn [Vector3.y]. exact Hbelow.
Qed.

Lemma keyboard_rest_is_fixed_point_upFace :
  Ball.position
    (fst (useFrame (keyboardProps [upFace]) Keys.none (1 / 30) 0
            (ballAt (Vector3.mk 0 0.25 0) (Vector3.mk 0 0 0))))
  = Ball.position (ballAt (Vector3.mk 0 0.25 0) (Vector3.mk 0 0 0))
  /\ Ball.velocityRef
       (fst (useFrame (keyboardProps [upFace]) Keys.none (1 / 30) 0
               (ballAt (Vector3.mk 0 0.25 0) (Vector3.mk 0 0 0))))
     = Ball.velocityRef (ballAt (Vector3.mk 0 0.25 0) (Vector3.mk 0 0 0)).
Proof.
  assert (Hx : Rabs (Vector3.x (Ball.position
                       (ballAt (Vector3.mk 0 0.25 0) (Vector3.mk 0 0 0))))
               <= terrainSize * 0.6) by (cbn; unfold terrainSize; rsolve).
  assert (Hz : Rabs (Vector3.z (Ball.position
                       (ballAt (Vector3.mk 0 0.25 0) (Vector3.mk 0 0 0))))
               <= terrainSize * 0.6) by (cbn; unfold terrainSize; rsolve).
  assert (Hy : Vector3.y (Ball.position
                  (ballAt (Vector3.mk 0 0.25 0) (Vector3.mk 0 0 0)))
               = GroundInfo.y (GroundInfo.mk 0 (Vector3.mk 0 1 0) 0%Z)
                 + Props.radius (keyboardProps [upFace])) by (cbn; lra).
  assert (Hdt : 0 < 1 / 30) by lra.
  destruct (keyboard_rest_is_fixed_point (keyboardProps [upFace]) Keys.none
              (1 / 30) 0 (ballAt (Vector3.mk 0 0.25 0) (Vector3.mk 0 0 0))
              (GroundInfo.mk 0 (Vector3.mk 0 1 0) 0%Z)
              eq_refl eq_refl Hdt eq_refl getGroundInfo_upFace_origin
              Hy Hx Hz) as (Hfall & Hfixed & _).
  apply Hfixed. cbn [ballAt Ball.position Vector3.y].
  unfold resetThreshold. lra.
Defined.

(** The tracked face id and the highlight of the page move together: if
    the page highlights the tracked id before a keyboard step, it highlights
    the tracked id after it.  After a step that is not a recovery the
    tracked id is the id of the face in contact, or none; after a recovery
    it is none. *)
Theorem keyboard_highlight_follows_tracked_face
    (props : Props.t) (keys : Keys.t) (dt now : R) (st : Ball.t) :
  Props.keyboardControl props = true ->
  let s1 := integrate keys (Rmin dt (1 / 60)) st in
  let r := useFrame props keys dt now st in
  shownHighlight (Ball.currentFaceId st) (snd r) = Ball.currentFaceId (fst r)
  /\ (forall q, groundQuery props keys (Rmin dt (1 / 60)) st = Some q ->
        Ball.currentFaceId (fst r)
        = option_map GroundInfo.id (contactWith props s1))
  /\ (groundQuery props keys (Rmin dt (1 / 60)) st = None ->
        Ball.currentFaceId (fst r) = None).
Proof.
  intros Hk s1 r. subst r. rewrite (useFrame_keyboard _ _ _ _ _ Hk).
  destruct (keyboardStep_cases props keys (Rmin dt (1 / 60)) now st)
    as [[Hn ->]|[(g & Hq & Hc & _ & ->)|(q & Hq & Hc & _ & ->)]]; fold s1.
  - rewrite Hn. repeat split; try reflexivity; try discriminate.
  - fold s1 in Hc. rewrite Hq, Hc.
    destruct (resolveContact_notifications now g props s1) as (E1 & E2 & _).
    change (Ball.currentFaceId s1) with (Ball.currentFaceId st) in E2.
    rewrite E1, E2. repeat split; try reflexivity; try discriminate.
  - fold s1 in Hc. rewrite Hq, Hc.
    destruct (noContact_notifications now s1) as (E1 & E2 & _).
    change (Ball.currentFaceId s1) with (Ball.currentFaceId st) in E2.
    rewrite E1, E2. repeat split; try reflexivity; try discriminate.
Qed.

Lemma keyboard_highlight_follows_tracked_face_off_edge :
  let s1 := integrate Keys.none (Rmin (1 / 60) (1 / 60)) staleBall in
  let r := useFrame (keyboardProps [upFace]) Keys.none (1 / 60) 1016 staleBall in
  shownHighlight (Ball.currentFaceId staleBall) (snd r)
  = Ball.currentFaceId (fst r)
  /\ (forall q, groundQuery (keyboardProps [upFace]) Keys.none
                  (Rmin (1 / 60) (1 / 60)) staleBall = Some q ->
        Ball.currentFaceId (fst r)
        = option_map GroundInfo.id (contactWith (keyboardProps [upFace]) s1))
  /\ (groundQuery (keyboardProps [upFace]) Keys.none (Rmin (1 / 60) (1 / 60))
        staleBall = None ->
        Ball.currentFaceId (fst r) = None).
Proof.
  apply (keyboard_highlight_follows_tracked_face (keyboardProps [upFace])
           Keys.none (1 / 60) 1016 staleBall).
  reflexivity.
Defined.

(** Vector notifications are throttled in every keyboard step that is not a
    recovery: one is sent only when more than 50 ms have passed since the
    last, the timestamp of the last notification becomes [now] exactly when
    one is sent, and otherwise stays as it was. *)
Theorem keyboard_vector_updates_throttled
    (props : Props.t) (keys : Keys.t) (dt now : R) (st : Ball.t)
    (q : option GroundInfo.t) :
  Props.keyboardControl props = true ->
  groundQuery props keys (Rmin dt (1 / 60)) st = Some q ->
  let r := useFrame props keys dt now st in
  ((exists v, In (onVectorUpdate v) (snd r)) ->
     50 < now - Ball.lastVectorUpdate st
     /\ Ball.lastVectorUpdate (fst r) = now)
  /\ ((forall v, ~ In (onVectorUpdate v) (snd r)) ->
      Ball.lastVectorUpdate (fst r) = Ball.lastVectorUpdate st)
  /\ (now - Ball.lastVectorUpdate st <= 50 ->
      forall v, ~ In (onVectorUpdate v) (snd r)).
Proof.
  intros Hk Hq r. subst r. rewrite (useFrame_keyboard _ _ _ _ _ Hk).
  set (s1 := integrate keys (Rmin dt (1 / 60)) st).
  assert (T : forall limit res,
            50 <= limit ->
            (Ball.lastVectorUpdate (fst res)
             = (if Num.gtb (now - Ball.lastVectorUpdate st) limit
                then now else Ball.lastVectorUpdate st)
             /\ ((exists v, In (onVectorUpdate v) (snd res))
                 <-> Num.gtb (now - Ball.lastVectorUpdate st) limit = true)) ->
            ((exists v, In (onVectorUpdate v) (snd res)) ->
               50 < now - Ball.lastVectorUpdate st
               /\ Ball.lastVectorUpdate (fst res) = now)
            /\ ((forall v, ~ In (onVectorUpdate v) (snd res)) ->
                Ball.lastVectorUpdate (fst res) = Ball.lastVectorUpdate st)
            /\ (now - Ball.lastVectorUpdate st <= 50 ->
                forall v, ~ In (onVectorUpdate v) (snd res))).
  { intros limit res Hl [El Ei].
    destruct (Num.gtb (now - Ball.lastVectorUpdate st) limit) eqn:D.
    - apply NumFacts.gtb_true in D. repeat split.
      + lra.
      + exact El.
      + intros Hno. destruct (proj2 Ei eq_refl) as (v & Hv).
        destruct (Hno v Hv).
      + intros Hle. lra.
    - repeat split.
      + apply Ei in H. discriminate.
      + apply Ei in H. discriminate.
      + intros _. exact El.
      + intros _ v Hv. assert (X : false = true) by (apply Ei; exists v; exact Hv).
        discriminate. }
  destruct (keyboardStep_cases props keys (Rmin dt (1 / 60)) now st)
    as [[Hn _]|[(g & _ & _ & _ & ->)|(q' & _ & _ & _ & ->)]]; fold s1.
  - rewrite Hq in Hn. discriminate.
  - destruct (resolveContact_notifications now g props s1) as (_ & _ & E3 & E4).
    apply (T 50); [lra|]. split; assumption.
  - destruct (noContact_notifications now s1) as (_ & _ & E3 & E4).
    apply (T 100); [lra|]. split; assumption.
Qed.

Lemma staleBall_query :
  groundQuery (keyboardProps [upFace]) Keys.none (Rmin (1 / 60) (1 / 60))
    staleBall = Some None.
Proof. unfold_step. num_eval. reflexivity. Qed.

Lemma keyboard_vector_updates_throttled_off_edge :
  let r := useFrame (keyboardProps [upFace]) Keys.none (1 / 60) 1016 staleBall in
  ((exists v, In (onVectorUpdate v) (snd r)) ->
     50 < 1016 - Ball.lastVectorUpdate staleBall
     /\ Ball.lastVectorUpdate (fst r) = 1016)
  /\ ((forall v, ~ In (onVectorUpdate v) (snd r)) ->
      Ball.lastVectorUpdate (fst r) = Ball.lastVectorUpdate staleBall)
  /\ (1016 - Ball.lastVectorUpdate staleBall <= 50 ->
      forall v, ~ In (onVectorUpdate v) (snd r)).
Proof.
  apply (keyboard_vector_updates_throttled (keyboardProps [upFace]) Keys.none
           (1 / 60) 1016 staleBall None).
  - reflexivity.
  - exact staleBall_query.
Defined.

(** Every frame of 1/60 s or longer is stepped as a frame of exactly
    1/60 s, in keyboard mode and in legacy mode alike. *)
Theorem useFrame_long_frames_alike
    (props : Props.t) (keys : Keys.t) (dt now : R) (st : Ball.t) :
  1 / 60 <= dt ->
  useFrame props keys dt now st = useFrame props keys (1 / 60) now st.
Proof.
  intros H. unfold useFrame.
  rewrite (Rmin_right dt (1 / 60)) by exact H.
  rewrite (Rmin_left (1 / 60) (1 / 60)) by lra. reflexivity.
Qed.

Lemma useFrame_long_frames_alike_one_second :
  useFrame (keyboardProps [upFace]) Keys.none 1 0
    (ballAt (Vector3.mk 0 2 0) Vector3.zero)
  = useFrame (keyboardProps [upFace]) Keys.none (1 / 60) 0
      (ballAt (Vector3.mk 0 2 0) Vector3.zero).
Proof.
  apply (useFrame_long_frames_alike (keyboardProps [upFace]) Keys.none 1 0
           (ballAt (Vector3.mk 0 2 0) Vector3.zero)).
  lra.
Defined.

(** ** The step in legacy launch mode, continued *)

Lemma reflect_dot_normal v n :
  Vector3.dot (reflect v n) n = - Vector3.dot v n.
Proof.
  unfold reflect, normalize.
  destruct (lengthSq_pos_or_zero n) as [H|H].
  - rewrite (normalize_of_zero_length n H).
    destruct (lengthSq_zero_components n H) as (Hx & Hy & Hz).
    vec_components. rewrite Hx, Hy, Hz. ring.
  - rewrite (normalize_scale n H).
    pose proof (length_pos n H) as Hl.
    pose proof (length_lengthSq n) as Hsq.
    set (l := Vector3.length n) in *.
    unfold Vector3.lengthSq in Hsq. vec_components.
    set (d := Vector3.x v * Vector3.x n + Vector3.y v * Vector3.y n
              + Vector3.z v * Vector3.z n).
    transitivity (d - 2 * d * ((Vector3.x n * Vector3.x n
                                + Vector3.y n * Vector3.y n
                                + Vector3.z n * Vector3.z n) / (l * l)));
      [unfold d; field; lra|].
    rewrite <- Hsq. field. lra.
Qed.

Lemma bounceLoop_none now radius st faces :
  (forall f, In f faces ->
     triggers radius (Ball.position st) (Ball.velocityRef st) f = false) ->
  bounceLoop now radius st faces = None.
Proof.
  induction faces as [|f faces IH]; intros H; cbn [bounceLoop].
  - reflexivity.
  - rewrite (bounceOn_skips now radius st f) by (apply H; left; reflexivity).
    apply IH. intros f' Hin. apply H. right; exact Hin.
Qed.

Lemma clearExpired_body now old st :
  Ball.position (clearExpired now old st) = Ball.position st
  /\ Ball.velocityRef (clearExpired now old st) = Ball.velocityRef st.
Proof.
  unfold clearExpired.
  destruct old as [i|]; [destruct (Num.gtb now _)|]; split; reflexivity.
Qed.

Section LegacyStep.

Variables (props : Props.t) (keys : Keys.t) (dt now : R) (st : Ball.t).

Hypothesis legacy : Props.keyboardControl props = false.
Hypothesis launched : Props.launched props = true.

Local Abbreviation delta := (Rmin dt (1 / 60)).
Local Abbreviation radius := (Props.radius props).
Local Abbreviation v1 :=
  (Vector3.set_y (Ball.velocityRef st)
     (Vector3.y (Ball.velocityRef st) - 9.8 * Rmin dt (1 / 60))).
Local Abbreviation p1 :=
  (Vector3.addScaledVector (Ball.position st)
     (Vector3.set_y (Ball.velocityRef st)
        (Vector3.y (Ball.velocityRef st) - 9.8 * Rmin dt (1 / 60)))
     (Rmin dt (1 / 60))).
Local Abbreviation s1 :=
  (Ball.with_position
     (Ball.with_velocity st
        (Vector3.set_y (Ball.velocityRef st)
           (Vector3.y (Ball.velocityRef st) - 9.8 * Rmin dt (1 / 60))))
     (Vector3.addScaledVector (Ball.position st)
        (Vector3.set_y (Ball.velocityRef st)
           (Vector3.y (Ball.velocityRef st) - 9.8 * Rmin dt (1 / 60)))
        (Rmin dt (1 / 60)))).

Lemma legacy_step_slow :
  Vector3.lengthSq v1 < 0.01 ->
  useFrame props keys dt now st = (s1, []).
Proof.
  intros Hslow. unfold useFrame, legacyStep. rewrite legacy, launched.
  cbn [negb]. apply NumFacts.ltb_true in Hslow. rewrite Hslow. reflexivity.
Qed.

Lemma legacy_step_fast :
  0.01 <= Vector3.lengthSq v1 ->
  useFrame props keys dt now st
  = match bounceLoop now radius s1 (nearbyFaces radius p1 (Props.faces props)) with
    | Some (s, ev) => (clearExpired now (Ball.impact st) s, ev)
    | None => (clearExpired now (Ball.impact st) s1, [])
    end.
Proof.
  intros Hfast. unfold useFrame, legacyStep. rewrite legacy, launched.
  cbn [negb]. apply NumFacts.ltb_false in Hfast. rewrite Hfast.
  change (Ball.position (Ball.with_velocity st v1)) with (Ball.position st).
  change (Ball.position s1) with p1.
  destruct (bounceLoop now radius s1 (nearbyFaces radius p1 (Props.faces props)))
    as [[s ev]|]; reflexivity.
Qed.

Lemma legacy_step_bounce pre f post :
  0.01 <= Vector3.lengthSq v1 ->
  nearbyFaces radius p1 (Props.faces props) = pre ++ f :: post ->
  (forall f', In f' pre -> triggers radius p1 v1 f' = false) ->
  triggers radius p1 v1 f = true ->
  Ball.velocityRef (fst (useFrame props keys dt now st))
    = reflect v1 (Face.normal f)
  /\ Ball.position (fst (useFrame props keys dt now st))
     = (if Num.gtb (radius - Vector3.dot (Face.normal f)
                                (Vector3.sub p1 (Face.a f))) 0
        then Vector3.add p1
               (Vector3.multiplyScalar (Face.normal f)
                  (radius - Vector3.dot (Face.normal f)
                              (Vector3.sub p1 (Face.a f)) + 1e-3))
        else p1).
Proof.
  intros Hfast Hnear Hpre Hf.
  rewrite (legacy_step_fast Hfast), Hnear.
  rewrite (bounceLoop_first now radius s1 pre f post Hpre Hf).
  rewrite (bounceOn_triggers now radius s1 f Hf). cbv zeta. cbn [fst].
  destruct (clearExpired_body now (Ball.impact st)
              (Ball.with_impact
                 (Ball.with_velocity
                    (Ball.with_position s1
                       (if Num.gtb (radius - Vector3.dot (Face.normal f)
                                                (Vector3.sub (Ball.position s1) (Face.a f))) 0
                        then Vector3.add (Ball.position s1)
                               (Vector3.multiplyScalar (Face.normal f)
                                  (radius - Vector3.dot (Face.normal f)
                                              (Vector3.sub (Ball.position s1) (Face.a f))
                                   + 1e-3))
                        else Ball.position s1))
                    (reflect (Ball.velocityRef s1) (Face.normal f)))
                 (Some (Impact.mk
                          (Vector3.sub (Ball.position s1)
                             (Vector3.multiplyScalar (Face.normal f)
                                (Vector3.dot (Face.normal f)
                                   (Vector3.sub (Ball.position s1) (Face.a f)))))
                          (Ball.velocityRef s1) (Face.normal f)
                          (projectOnto (Ball.velocityRef s1) (Face.normal f))
                          (reflect (Ball.velocityRef s1) (Face.normal f))
                          (now + 1500))))) as [-> ->].
  split; reflexivity.
Qed.

End LegacyStep.

Lemma triggers_approaching radius p v f :
  triggers radius p v f = true -> Vector3.dot v (Face.normal f) < 0.
Proof.
  unfold triggers. intros H.
  apply andb_true_iff in H as [H _]. apply andb_true_iff in H as [H _].
  apply NumFacts.ltb_true in H. exact H.
Qed.

(** A bounce of legacy mode is elastic and turns the ball away from the
    face: the speed after the step is the speed after gravity, the
    component of the velocity along the normal changes sign and becomes
    positive; and when the normal has unit length and the ball penetrates
    the face, the ball ends at distance [radius + 1e-3] from the plane. *)
Theorem legacy_bounce_elastic_and_outward
    (props : Props.t) (keys : Keys.t) (dt now : R) (st : Ball.t)
    (pre post : list Face.t) (f : Face.t) :
  Props.keyboardControl props = false ->
  Props.launched props = true ->
  let delta := Rmin dt (1 / 60) in
  let radius := Props.radius props in
  let v1 := Vector3.set_y (Ball.velocityRef st)
              (Vector3.y (Ball.velocityRef st) - 9.8 * delta) in
  let p1 := Vector3.addScaledVector (Ball.position st) v1 delta in
  0.01 <= Vector3.lengthSq v1 ->
  nearbyFaces radius p1 (Props.faces props) = pre ++ f :: post ->
  (forall f', In f' pre -> triggers radius p1 v1 f' = false) ->
  triggers radius p1 v1 f = true ->
  let n := Face.normal f in
  let s2 := fst (useFrame props keys dt now st) in
  Vector3.length (Ball.velocityRef s2) = Vector3.length v1
  /\ Vector3.dot (Ball.velocityRef s2) n = - Vector3.dot v1 n
  /\ 0 < Vector3.dot (Ball.velocityRef s2) n
  /\ (Vector3.lengthSq n = 1 ->
      Vector3.dot n (Vector3.sub p1 (Face.a f)) < radius ->
      Vector3.dot n (Vector3.sub (Ball.position s2) (Face.a f))
      = radius + 1e-3).
Proof.
  intros Hk Hl delta radius v1 p1 Hfast Hnear Hpre Hf n s2.
  destruct (legacy_step_bounce props keys dt now st Hk Hl pre f post
              Hfast Hnear Hpre Hf) as [Ev Ep].
  subst s2. rewrite Ev, Ep. fold delta radius v1 p1 n.
  pose proof (triggers_approaching radius p1 v1 f Hf) as Ha. fold n in Ha.
  repeat split.
  - apply reflect_length.
  - apply reflect_dot_normal.
  - rewrite reflect_dot_normal. lra.
  - intros Hn Hd.
    assert (E : Num.gtb (radius - Vector3.dot n (Vector3.sub p1 (Face.a f))) 0
                = true) by (apply NumFacts.gtb_true; lra).
    rewrite E. revert Hn. vec_components. intros Hn.
    set (dist := Vector3.x n * (Vector3.x p1 - Vector3.x (Face.a f))
                 + Vector3.y n * (Vector3.y p1 - Vector3.y (Face.a f))
                 + Vector3.z n * (Vector3.z p1 - Vector3.z (Face.a f))).
    transitivity
      (dist + (radius - dist + 1e-3)
              * (Vector3.x n * Vector3.x n + Vector3.y n * Vector3.y n
                 + Vector3.z n * Vector3.z n)); [unfold dist; ring|].
    rewrite Hn. ring.
Qed.

Lemma legacy_bounce_elastic_and_outward_falling :
  let st := ballAt (Vector3.mk 0 0.2 0) (Vector3.mk 0 (-1) 0) in
  let props := legacyProps [upFace] in
  let delta := Rmin (1 / 60) (1 / 60) in
  let radius := Props.radius props in
  let v1 := Vector3.set_y (Ball.velocityRef st)
              (Vector3.y (Ball.velocityRef st) - 9.8 * delta) in
  let p1 := Vector3.addScaledVector (Ball.position st) v1 delta in
  let n := Face.normal upFace in
  let s2 := fst (useFrame props Keys.none (1 / 60) 0 st) in
  Vector3.length (Ball.velocityRef s2) = Vector3.length v1
  /\ Vector3.dot (Ball.velocityRef s2) n = - Vector3.dot v1 n
  /\ 0 < Vector3.dot (Ball.velocityRef s2) n
  /\ (Vector3.lengthSq n = 1 ->
      Vector3.dot n (Vector3.sub p1 (Face.a upFace)) < radius ->
      Vector3.dot n (Vector3.sub (Ball.position s2) (Face.a upFace))
      = radius + 1e-3).
Proof.
  apply (legacy_bounce_elastic_and_outward (legacyProps [upFace]) Keys.none
           (1 / 60) 0 (ballAt (Vector3.mk 0 0.2 0) (Vector3.mk 0 (-1) 0))
           [] [] upFace).
  - reflexivity.
  - reflexivity.
  - unfold_step. rsolve.
  - reflexivity.
  - intros f' [].
  - unfold_step. num_eval. reflexivity.
Defined.

(** Legacy mode after the launch, when no face triggers a bounce: the ball
    is slow (squared speed below 0.01 after gravity), or no candidate face
    satisfies the three conditions.  The step applies gravity
    ([velocity.y -= 9.8 * delta]) and the Euler step of the position and
    calls no callback; when the ball is not slow it also clears an impact
    whose time is over ([now > impact.until]); it leaves everything else as
    it was. *)
Theorem legacy_ballistic_without_trigger
    (props : Props.t) (keys : Keys.t) (dt now : R) (st : Ball.t) :
  Props.keyboardControl props = false ->
  Props.launched props = true ->
  let delta := Rmin dt (1 / 60) in
  let v1 := Vector3.set_y (Ball.velocityRef st)
              (Vector3.y (Ball.velocityRef st) - 9.8 * delta) in
  let p1 := Vector3.addScaledVector (Ball.position st) v1 delta in
  let s1 := Ball.with_position (Ball.with_velocity st v1) p1 in
  Vector3.lengthSq v1 < 0.01
  \/ (forall f, In f (nearbyFaces (Props.radius props) p1 (Props.faces props)) ->
        triggers (Props.radius props) p1 v1 f = false) ->
  useFrame props keys dt now st
  = (if Num.ltb (Vector3.lengthSq v1) 0.01 then s1
     else match Ball.impact st with
          | Some i =>
              if Num.gtb now (Impact.until i) then Ball.with_impact s1 None
              else s1
          | None => s1
          end,
     []).
Proof.
  intros Hk Hl delta v1 p1 s1 Hcase.
  destruct (Rlt_dec (Vector3.lengthSq v1) 0.01) as [Hslow|Hfast].
  - rewrite (legacy_step_slow props keys dt now st Hk Hl Hslow).
    apply NumFacts.ltb_true in Hslow. rewrite Hslow. reflexivity.
  - destruct Hcase as [Hslow|Hnone]; [contradiction|].
    assert (Hge : 0.01 <= Vector3.lengthSq v1) by (apply Rnot_lt_le; exact Hfast).
    rewrite (legacy_step_fast props keys dt now st Hk Hl Hge).
    rewrite bounceLoop_none by exact Hnone.
    apply NumFacts.ltb_false in Hge. rewrite Hge. reflexivity.
Qed.

Lemma legacy_ballistic_without_trigger_in_flight :
  let st := ballAt (Vector3.mk 0 3 0) (Vector3.mk 1 2 0) in
  let delta := Rmin (1 / 60) (1 / 60) in
  let v1 := Vector3.set_y (Ball.velocityRef st)
              (Vector3.y (Ball.velocityRef st) - 9.8 * delta) in
  let p1 := Vector3.addScaledVector (Ball.position st) v1 delta in
  let s1 := Ball.with_position (Ball.with_velocity st v1) p1 in
  useFrame (legacyProps [upFace]) Keys.none (1 / 60) 0 st
  = (if Num.ltb (Vector3.lengthSq v1) 0.01 then s1
     else match Ball.impact st with
          | Some i =>
              if Num.gtb 0 (Impact.until i) then Ball.with_impact s1 None
              else s1
          | None => s1
          end,
     []).
Proof.
  apply (legacy_ballistic_without_trigger (legacyProps [upFace]) Keys.none
           (1 / 60) 0 (ballAt (Vector3.mk 0 3 0) (Vector3.mk 1 2 0))).
  - reflexivity.
  - reflexivity.
  - right. intros f Hin. change (In f [upFace]) in Hin.
    destruct Hin as [<-|[]]. unfold_step. num_eval. reflexivity.
Defined.

(** ** The mount and reset effect *)

(** Without faces the effect does nothing.  With faces it puts the ball
    exactly where the out-of-bounds recovery puts it, at rest, with the
    contact point one radius below the centre; it clears the projection and
    reflection refs and the impact but leaves the incoming ref as it was;
    and the tracked face id becomes the id of the ground under the start
    position, which is then also highlighted, or none. *)
Theorem resetEffect_places_ball (props : Props.t) (st st' : Ball.t) :
  let r := resetEffect props st in
  let ground := getGroundInfo (Vector3.x (Props.startPos props))
                  (Vector3.z (Props.startPos props)) (Props.faces props) in
  (Props.faces props = [] -> r = (st, []))
  /\ (Props.faces props <> [] ->
      Ball.position (fst r) = Ball.position (fst (recover props st'))
      /\ Ball.velocityRef (fst r) = Vector3.mk 0 0 0
      /\ Ball.contactRef (fst r)
         = Vector3.mk (Vector3.x (Ball.position (fst r)))
             (Vector3.y (Ball.position (fst r)) - Props.radius props)
             (Vector3.z (Ball.position (fst r)))
      /\ Ball.projectionRef (fst r) = Vector3.mk 0 0 0
      /\ Ball.reflectionRef (fst r) = Vector3.mk 0 0 0
      /\ Ball.incomingRef (fst r) = Ball.incomingRef st
      /\ Ball.impact (fst r) = None
      /\ Ball.currentFaceId (fst r) = option_map GroundInfo.id ground
      /\ (forall g shown, ground = Some g ->
            shownHighlight shown (snd r) = Ball.currentFaceId (fst r))).
Proof.
  intros r ground. subst r ground. unfold resetEffect, recover. split.
  - intros ->. reflexivity.
  - intros Hne.
    destruct (Props.faces props) as [|f0 faces] eqn:Ef; [contradiction|].
    cbn [List.length Nat.eqb]. rewrite <- Ef.
    destruct (getGroundInfo (Vector3.x (Props.startPos props))
                (Vector3.z (Props.startPos props)) (Props.faces props))
      as [g|]; cbn; repeat split; intros; try discriminate; reflexivity.
Qed.

(** ** The integrator of the unit tests *)

Lemma frames_succ n dt ball :
  BallPhysics.frames (S n) dt ball
  = BallPhysics.update (BallPhysics.frames n dt ball) dt.
Proof.
  revert ball. induction n as [|n IH]; intros ball.
  - reflexivity.
  - change (BallPhysics.frames (S (S n)) dt ball)
      with (BallPhysics.frames (S n) dt (BallPhysics.update ball dt)).
    rewrite IH. reflexivity.
Qed.

(** After [n] updates with a constant time step, the horizontal velocity
    of the test integrator is unchanged, its vertical velocity has gained
    [n * gravity * dt], the horizontal position has advanced by
    [n * v * dt], and the vertical position is
    [y + n * vy * dt + gravity * dt^2 * n * (n + 1) / 2]; the gravity
    constant is untouched. *)
Theorem BallPhysics_frames_closed_form (n : nat) (dt : R) (ball : BallPhysics.t) :
  let b := BallPhysics.frames n dt ball in
  let v := BallPhysics.velocity ball in
  let p := BallPhysics.position ball in
  let g := BallPhysics.gravity ball in
  BallPhysics.gravity b = g
  /\ Vector3.x (BallPhysics.velocity b) = Vector3.x v
  /\ Vector3.z (BallPhysics.velocity b) = Vector3.z v
  /\ Vector3.y (BallPhysics.velocity b) = Vector3.y v + INR n * g * dt
  /\ Vector3.x (BallPhysics.position b) = Vector3.x p + INR n * Vector3.x v * dt
  /\ Vector3.z (BallPhysics.position b) = Vector3.z p + INR n * Vector3.z v * dt
  /\ Vector3.y (BallPhysics.position b)
     = Vector3.y p + INR n * Vector3.y v * dt
       + g * dt * dt * INR n * (INR n + 1) / 2.
Proof.
  induction n as [|n IH]; cbv zeta in *.
  - cbn [BallPhysics.frames INR]. repeat split; lra.
  - rewrite frames_succ. rewrite S_INR.
    destruct IH as (Hg & Hvx & Hvz & Hvy & Hpx & Hpz & Hpy).
    unfold BallPhysics.update.
    cbn [BallPhysics.gravity BallPhysics.velocity BallPhysics.position
         Vector3.set_y Vector3.addScaledVector Vector3.x Vector3.y Vector3.z].
    rewrite Hg, Hvx, Hvz, Hvy, Hpx, Hpz, Hpy.
    repeat split; try reflexivity; field.
Qed.
